(** * Shotcraft inventory: the feasibility engine of [app.py]

    A shallow embedding of the data transforms of [app.py]
    ([read_ws_df], [load_data], [write_onhand], [compute]) and the
    properties the specification states about them.

    Modelling conventions.
    - A spreadsheet or DataFrame cell is a [cell]: a number, a text, or
      the null marker (pandas' NaN / None).
    - [compute] is embedded twice.  The first embedding takes the
      quantities as exact rationals [Q]: it carries the statements about
      the shape of the tables (the merge, the rows, their order), about
      signs and about comparisons between two runs, none of which
      turns on rounding.  There a number is finite and division is
      exact, so [math.floor] never meets an infinity.
      The second embedding (module [B64]) takes them as IEEE binary64
      values with rounded arithmetic, signed zeros, infinities and NaN:
      it carries the statements about the value of [max_sell] and about
      when [compute] returns or raises.
    - Which texts pandas parses as numbers is the library's business: the
      string parser is a parameter ([str_to_float]) of the development,
      and every theorem holds for every parser.
    - Python exceptions are values of [exn]; a function that can raise
      returns a [result]. *)

From Stdlib Require Import QArith Qround Qminmax Qabs ZArith.
From Stdlib Require Import String Ascii List Lia.
From Stdlib Require Import Floats.SpecFloat.
From stdpp Require Import base option list sorting strings gmap.

(** ** Exceptions and the error monad *)

Inductive exn : Type :=
  | ValueError_headers (need found : list string)
      (* load_data: "FORMULA must have headers: ... Found: ..." *)
  | ValueError_shape (ncols ndata : nat)
      (* pd.DataFrame: "n columns passed, passed data had m columns" *)
  | ValueError_scalars
      (* pd.DataFrame(dict): "If using all scalar values, you must pass
         an index" *)
  | ValueError_setitem (label : string)
      (* "Cannot set a DataFrame with multiple columns to the single
         column ..." *)
  | ValueError_parse (s : string)
      (* pd.to_numeric(errors="raise"): unable to parse string *)
  | ValueError_nan
      (* math.floor(nan): cannot convert float NaN to integer *)
  | OverflowError
      (* math.floor(inf): cannot convert float infinity to integer *)
  | ValueError_not_unique (label : string)
      (* merge: "The column label '...' is not unique." *)
  | TypeError_arg
      (* pd.to_numeric: "arg must be a list, tuple, 1-d array, or
         Series" *)
  | KeyError (label : string)
  | WorksheetNotFound (name : string).

Inductive result (A : Type) : Type :=
  | Ok (a : A)
  | Raise (e : exn).
Arguments Ok {A} a.
Arguments Raise {A} e.

Global Instance result_ret : MRet result := fun A a => Ok a.

Global Instance result_bind : MBind result := fun A B k r =>
  match r with
  | Ok a => k a
  | Raise e => Raise e
  end.

Definition raises {A : Type} (r : result A) : Prop :=
  exists e, r = Raise e.

Definition returns {A : Type} (r : result A) : Prop :=
  exists a, r = Ok a.

(** ** Cells *)

Inductive cell : Type :=
  | Num (q : Q)        (* a float *)
  | Str (s : string)   (* a text, as read from a sheet *)
  | NA.                (* NaN / None *)

(** The [errors=] argument of [pd.to_numeric]. *)
Inductive errors_mode : Type := errors_raise | errors_coerce.

(** A float column element ([None] is NaN) stored back in a frame. *)
Definition cell_of_float (x : option Q) : cell :=
  match x with
  | Some q => Num q
  | None => NA
  end.

(** [Series.fillna(v)] on one element. *)
Definition fillna (v : Q) (x : option Q) : Q :=
  match x with
  | Some q => q
  | None => v
  end.

Global Instance Qlt_dec : RelDecision Qlt.
Proof. intros x y. unfold Qlt. apply _. Defined.

(** ** The tables of the engine *)

(** A row of the per-case usage table [comps]: the columns [Component],
    [Per_Case] and [UOM] that [load_data] builds. *)
Record usage_row : Type := {
  usage_Component : string;
  usage_Per_Case : cell;
  usage_UOM : string
}.

(** The stock table [onhand]: a [Component] column, and an [On_Hand]
    column when the frame has one.  These are the frames the callers
    pass ([inv[["Component","On_Hand"]]], [edited[["Component",
    "On_Hand"]]]); a stock frame with further columns, which the merge
    would carry along or rename on a clash with [comps], is not
    represented. *)
Inductive stock_table : Type :=
  | StockOnHand (rows : list (string * cell))
  | StockNoOnHand (names : list string).

Definition stock_names (onhand : stock_table) : list string :=
  match onhand with
  | StockOnHand rows => fst <$> rows
  | StockNoOnHand names => names
  end.

(** How many rows of a [Component] column carry [name]. *)
Definition occurrences (name : string) (names : list string) : nat :=
  length (filter (fun n => n = name) names).

(** A row of the derived frame [df], after the coercions of [compute]. *)
Record feas_row : Type := {
  Component : string;
  UOM : string;
  On_Hand : Q;
  Per_Case : Q;
  Required : Q;
  Remaining : Q
}.

(** [left.merge(right, on="Component", how="left")]: every left row, in
    order, once per right row with the same key (in the right frame's
    order), or once with the null value [na] when no right row matches.
    [A] is the payload of the right frame besides the key. *)
Definition merge_left {A : Type} (left : list usage_row)
    (right : list (string * A)) (na : A) : list (usage_row * A) :=
  u ← left;
  match filter (fun r => r.1 = usage_Component u) right with
  | [] => [(u, na)]
  | ms => (fun r => (u, r.2)) <$> ms
  end.

(** Lines 162-163: the merge, and the [On_Hand] column set to [0.0] on
    every row when the merged frame has none. *)
Definition merge_on_hand (comps : list usage_row) (onhand : stock_table)
    : list (usage_row * cell) :=
  match onhand with
  | StockOnHand rows => merge_left comps rows NA
  | StockNoOnHand names =>
      (fun j => (j.1, Num 0)) <$>
        merge_left comps ((fun n => (n, ())) <$> names) ()
  end.

(** The [On_Hand] cell the lines 162-163 attach to a usage row with the
    component [name]: that of a stock row with this name, the null value
    when the stock table has no such row, and [0.0] when the stock table
    has no [On_Hand] column. *)
Definition joined_cell (onhand : stock_table) (name : string) (c : cell)
    : Prop :=
  match onhand with
  | StockOnHand rows => (name, c) ∈ rows \/ (c = NA /\ name ∉ fst <$> rows)
  | StockNoOnHand _ => c = Num 0
  end.

(** The [On_Hand] cells of a stock table. *)
Definition stock_cells (onhand : stock_table) : list cell :=
  match onhand with
  | StockOnHand rows => snd <$> rows
  | StockNoOnHand _ => []
  end.

(** [Series.min()]: NaN ([None]) on an empty series. *)
Definition series_min (l : list Q) : option Q :=
  match l with
  | [] => None
  | x :: l' => Some (foldl Qmin x l')
  end.

(** [int(math.floor(x))] on an exact value; [math.floor] raises on NaN.
    (On an infinity it raises [OverflowError]: see [B64.math_floor].) *)
Definition math_floor (x : option Q) : result Z :=
  match x with
  | Some q => Ok (Qfloor q)
  | None => Raise ValueError_nan
  end.

(** The order of [sort_values("Component")]: strings compared as Python
    compares them, character by character.  Rows with equal keys stay
    in frame order: the sort below inserts every row before the rows
    after it that have the same key. *)
Definition Component_le (r1 r2 : feas_row) : Prop :=
  Is_true (String.leb (Component r1) (Component r2)).

Global Instance Component_le_dec : RelDecision Component_le.
Proof. intros r1 r2. unfold Component_le. apply _. Defined.

Fixpoint insert_row (r : feas_row) (l : list feas_row) : list feas_row :=
  match l with
  | [] => [r]
  | x :: l' =>
      if decide (Component_le r x) then r :: l else x :: insert_row r l'
  end.

Definition sort_values (df : list feas_row) : list feas_row :=
  foldr insert_row [] df.

(** [On_Hand / Per_Case], exactly; the rounded quotient is [B64.ratio]. *)
Definition ratio (r : feas_row) : Q := (On_Hand r / Per_Case r)%Q.


(** ** DataFrames with arbitrary labels

    [load_data] and [write_onhand] work on frames whose columns are
    whatever the worksheet has; these are modelled with their label list
    and their rows. *)

Record DataFrame : Type := {
  columns : list string;
  values : list (list cell)
}.

(** What [df[label]] evaluates to: a Series when the label is unique, a
    frame when it is duplicated. *)
Inductive selection : Type :=
  | Series (s : list cell)
  | Frame (df : DataFrame).

Fixpoint positions_from (i : nat) (label : string) (cols : list string)
    : list nat :=
  match cols with
  | [] => []
  | c :: cols' =>
      if decide (c = label) then i :: positions_from (S i) label cols'
      else positions_from (S i) label cols'
  end.

Definition positions (label : string) (cols : list string) : list nat :=
  positions_from 0 label cols.

Definition row_at (row : list cell) (i : nat) : cell := default NA (row !! i).

Definition column_at (df : DataFrame) (i : nat) : list cell :=
  (fun row => row_at row i) <$> values df.

Definition take_columns (df : DataFrame) (ps : list nat) : DataFrame :=
  {| columns := (fun i => default EmptyString (columns df !! i)) <$> ps;
     values := (fun row => row_at row <$> ps) <$> values df |}.

(** [df[label]] *)
Definition getitem (df : DataFrame) (label : string) : result selection :=
  match positions label (columns df) with
  | [] => Raise (KeyError label)
  | [i] => Ok (Series (column_at df i))
  | ps => Ok (Frame (take_columns df ps))
  end.

(** [df[[l1, ..., ln]]] *)
Definition getitem_list (df : DataFrame) (labels : list string)
    : result DataFrame :=
  ps ← mapM (fun l => match positions l (columns df) with
                      | [] => Raise (KeyError l)
                      | p => Ok p
                      end) labels;
  mret (take_columns df (concat ps)).

Fixpoint set_positions (ps : list nat) (c : cell) (row : list cell)
    : list cell :=
  match ps with
  | [] => row
  | i :: ps' => set_positions ps' c (<[i := c]> row)
  end.

(** [df[label] = s] for a Series [s] of the frame's length: replaces the
    column (every column with that label), or appends a new one. *)
Definition setitem (df : DataFrame) (label : string) (s : list cell)
    : DataFrame :=
  match positions label (columns df) with
  | [] => {| columns := columns df ++ [label];
             values := zip_with (fun row c => row ++ [c]) (values df) s |}
  | ps => {| columns := columns df;
             values := zip_with (fun row c => set_positions ps c row)
                         (values df) s |}
  end.

(** [df[label] = c] for a scalar [c]. *)
Definition setitem_scalar (df : DataFrame) (label : string) (c : cell)
    : DataFrame :=
  setitem df label ((fun _ => c) <$> values df).

(** [pd.DataFrame(rows, columns=headers)] for a list of lists: short
    rows are padded with None, and the widest row must have as many
    elements as there are headers. *)
Definition pad_row (w : nat) (row : list cell) : list cell :=
  row ++ replicate (w - length row) NA.

Definition DataFrame_of_rows (rows : list (list cell)) (headers : list string)
    : result DataFrame :=
  match rows with
  | [] => Ok {| columns := headers; values := [] |}
  | _ =>
      let w := max_list (length <$> rows) in
      if decide (w = length headers)
      then Ok {| columns := headers; values := pad_row w <$> rows |}
      else Raise (ValueError_shape (length headers) w)
  end.

(** [read_ws_df(ws)], on the grid [ws.get_all_values()] returns. *)
Definition read_ws_df (grid : list (list string)) : result DataFrame :=
  match grid with
  | [] => Ok {| columns := []; values := [] |}
  | headers :: rows => DataFrame_of_rows ((fun row : list string => Str <$> row) <$> rows)
        headers
  end.

(** The header row of a worksheet grid: the labels [read_ws_df] gives
    the frame. *)
Definition headers (grid : list (list string)) : list string :=
  match grid with
  | [] => []
  | h :: _ => h
  end.

(** [set(labels).issubset(df.columns)] *)
Definition issubset (labels cols : list string) : bool :=
  forallb (fun l => bool_decide (l ∈ cols)) labels.
Arguments issubset : simpl never.

(** ** The spreadsheet

    A spreadsheet maps worksheet titles to grids of cells. *)

Definition grid : Type := list (list cell).

(** [ws.clear()] *)
Definition ws_clear (g : grid) : grid := [].

Definition overlay_row (new old : list cell) : list cell :=
  new ++ drop (length new) old.

(** [ws.update(values)]: writes the block [values] with its top left
    corner at A1; cells outside the block keep their content. *)
Fixpoint ws_update (vals : grid) (g : grid) : grid :=
  match vals, g with
  | [], _ => g
  | v :: vals', [] => v :: ws_update vals' []
  | v :: vals', r :: g' => overlay_row v r :: ws_update vals' g'
  end.

(** [out.astype(object).where(pd.notnull(out), ...)] on one element:
    a null becomes the empty text. *)
Definition blank_null (c : cell) : cell :=
  match c with
  | NA => Str EmptyString
  | _ => c
  end.

(** ** The service account: [normalize_private_key]

    Texts are sequences of bytes (UTF-8); the characters tested below
    are ASCII, so looking at bytes and looking at characters agree. *)

Definition backslash : ascii := ascii_of_nat 92.
Definition newline : ascii := ascii_of_nat 10.

(** The two-character text the secrets file may hold in place of a line
    break: a backslash, then the letter n. *)
Definition backslash_n : string :=
  String backslash (String "n" EmptyString).

Arguments ascii_dec : simpl never.
Arguments Ascii.eqb : simpl never.

(** [pat in s] *)
Fixpoint contains (pat s : string) : bool :=
  String.prefix pat s ||
  match s with
  | EmptyString => false
  | String _ s' => contains pat s'
  end.

(** [pk.replace("\\n", "\n")]: from left to right, every backslash
    followed by n becomes one line break. *)
Fixpoint replace_backslash_n (s : string) : string :=
  match s with
  | EmptyString => EmptyString
  | String c s' =>
      if Ascii.eqb c backslash then
        match s' with
        | String c' s'' =>
            if Ascii.eqb c' "n"
            then String newline (replace_backslash_n s'')
            else String c (replace_backslash_n s')
        | EmptyString => String c EmptyString
        end
      else String c (replace_backslash_n s')
  end.

(** [normalize_private_key(sa)], on the service-account table as a map
    from its keys to their texts. *)
Definition normalize_private_key (sa : gmap string string)
    : gmap string string :=
  let pk := default EmptyString (sa !! "private_key") in
  if contains backslash_n pk
  then <["private_key" := replace_backslash_n pk]> sa
  else sa.

(** ** The sheet id and the worksheet names

    [resolve_sheet_id] and [resolve_ws_names] read the page's query
    parameters, the secrets and, for the sheet id, a text field and a
    button.  What these lookups give is the input of the model;
    [str.strip], whose set of blank characters is Unicode's, is a
    parameter. *)

(** What the lookup of a query parameter or of a secret gives: nothing,
    a text, or a list of texts. *)
Inductive pyval : Type :=
  | PyNone
  | PyStr (s : string)
  | PyList (l : list string).

(** [first_value(x)]; [None] is Python's [None]. *)
Definition first_value (x : pyval) : option string :=
  match x with
  | PyList [] => None
  | PyList (a :: _) => Some a
  | PyStr s => Some s
  | PyNone => None
  end.

(** The test [if x:] on a text or [None]: the text when it is not
    empty. *)
Definition truthy (x : option string) : option string :=
  match x with
  | Some EmptyString => None
  | Some s => Some s
  | None => None
  end.

(** [s.split(sep)] for a separator that is not empty: the parts between
    the occurrences of [sep], found from left to right; [skip] counts the
    characters of an occurrence still to be passed. *)
Fixpoint split_go (sep : string) (skip : nat) (s : string) : list string :=
  match s with
  | EmptyString => [EmptyString]
  | String c s' =>
      match skip with
      | S k => split_go sep k s'
      | O =>
          if String.prefix sep s
          then EmptyString :: split_go sep (String.length sep - 1) s'
          else match split_go sep 0 s' with
               | part :: parts => String c part :: parts
               | [] => [String c EmptyString]
               end
      end
  end.

Definition split (sep s : string) : list string := split_go sep 0 s.

(** [raw.strip().split("/d/")[-1].split("/")[0] if "/d/" in raw else
    raw.strip()], the sheet id read off a query parameter. *)
Definition sheet_id_of_query (strip : string -> string) (raw : string)
    : string :=
  if contains "/d/" raw then
    default EmptyString
      (head (split "/" (default EmptyString
                          (last (split "/d/" (strip raw))))))
  else strip raw.

(** The sheet id read off the text field: the part after the first
    ["/d/"] up to the next slash; the [try] leaves the text as it is
    when there is no such part. *)
Definition sheet_id_of_input (strip : string -> string) (user_input : string)
    : string :=
  let txt := strip user_input in
  if contains "/d/" txt then
    match split "/d/" txt !! 1%nat with
    | Some part => default EmptyString (head (split "/" part))
    | None => txt
    end
  else txt.

(** What [resolve_sheet_id] looks at.  A lookup of the query parameters
    that raises is [None]. *)
Record sheet_env : Type := {
  query_sheet_id : option pyval;
    (* st.query_params.get("sheet_id", None) *)
  experimental_sheet_id : option pyval;
    (* st.experimental_get_query_params().get("sheet_id", None) *)
  secrets_SHEET_ID : pyval;
    (* st.secrets.get("SHEET_ID", None) *)
  app_SHEET_ID : pyval;
    (* st.secrets.get("app", {}).get("SHEET_ID", None) *)
  manual_sheet_input : option string;
    (* st.session_state.get("manual_sheet_input") *)
  text_input : string;
    (* what st.text_input returns *)
  button : bool
    (* what st.button returns *)
}.

(** How [resolve_sheet_id] ends: it returns, or it stores a text in the
    session state and reruns the script. *)
Inductive resolved : Type :=
  | Returned (sheet_id : option string)
  | Rerun (manual_sheet_input : string).

(** Lines 39-46: the query parameter, from the current interface or,
    when that raises, from the older one; [None] when both raise. *)
Definition query_value (env : sheet_env) : pyval :=
  match query_sheet_id env with
  | Some v => v
  | None =>
      match experimental_sheet_id env with
      | Some v => v
      | None => PyNone
      end
  end.

Definition resolve_sheet_id (strip : string -> string) (env : sheet_env)
    : resolved :=
  match truthy (first_value (query_value env)) with
  | Some raw => Returned (Some (sheet_id_of_query strip raw))
  | None =>
      match truthy (first_value (secrets_SHEET_ID env)) with
      | Some sid => Returned (Some (strip sid))
      | None =>
          match truthy (first_value (app_SHEET_ID env)) with
          | Some sid => Returned (Some (strip sid))
          | None =>
              match button env, truthy (Some (text_input env)) with
              | true, Some user_input =>
                  Rerun (sheet_id_of_input strip user_input)
              | _, _ => Returned (manual_sheet_input env)
              end
          end
      end
  end.

(** The next run of the script after [st.rerun()]: the session state
    holds the stored text and the button is not pressed. *)
Definition after_rerun (env : sheet_env) (stored : string) : sheet_env :=
  {| query_sheet_id := query_sheet_id env;
     experimental_sheet_id := experimental_sheet_id env;
     secrets_SHEET_ID := secrets_SHEET_ID env;
     app_SHEET_ID := app_SHEET_ID env;
     manual_sheet_input := Some stored;
     text_input := text_input env;
     button := false |}.

(** What [resolve_ws_names] looks at: the two query parameters (or
    [None] when looking them up raises) and the secrets that are set. *)
Record ws_env : Type := {
  query_ws : option (pyval * pyval);
    (* st.query_params.get("formula_ws"), .get("inventory_ws") *)
  secrets_FORMULA_WS : option string;
  secrets_INVENTORY_WS : option string;
  app_FORMULA_WS : option string;
  app_INVENTORY_WS : option string
}.

Definition resolve_ws_names (env : ws_env) : string * string :=
  let form_ws := "FORMULA" in
  let inv_ws := "INVENTORY" in
  let '(form_ws, inv_ws) :=
    match query_ws env with
    | Some (f, i) =>
        (default form_ws (truthy (first_value f)),
         default inv_ws (truthy (first_value i)))
    | None => (form_ws, inv_ws)
    end in
  let form_ws := default form_ws (secrets_FORMULA_WS env) in
  let inv_ws := default inv_ws (secrets_INVENTORY_WS env) in
  let form_ws := default form_ws (app_FORMULA_WS env) in
  let inv_ws := default inv_ws (app_INVENTORY_WS env) in
  (form_ws, inv_ws).

(** A [strip] for the examples: blanks (spaces) at both ends removed. *)
Fixpoint strip_left (s : string) : string :=
  match s with
  | String " " s' => strip_left s'
  | _ => s
  end.

Fixpoint strip_right (s : string) : string :=
  match s with
  | EmptyString => EmptyString
  | String c s' =>
      match strip_right s' with
      | EmptyString => if Ascii.eqb c " " then EmptyString
                       else String c EmptyString
      | t => String c t
      end
  end.

Definition strip_spaces (s : string) : string := strip_right (strip_left s).

Definition ex_url : string :=
  "https://docs.google.com/spreadsheets/d/1ivuxCDfMu/edit#gid=0".

Definition ex_env_query : sheet_env :=
  {| query_sheet_id := Some (PyList [ex_url]);
     experimental_sheet_id := None;
     secrets_SHEET_ID := PyStr "from-secrets";
     app_SHEET_ID := PyNone;
     manual_sheet_input := None;
     text_input := EmptyString;
     button := false |}.

Definition ex_ws_env : ws_env :=
  {| query_ws := Some (PyStr "RECIPE", PyList []);
     secrets_FORMULA_WS := Some "FORMULA_2024";
     secrets_INVENTORY_WS := None;
     app_FORMULA_WS := None;
     app_INVENTORY_WS := None |}.

Definition ex_env_manual : sheet_env :=
  {| query_sheet_id := Some PyNone;
     experimental_sheet_id := None;
     secrets_SHEET_ID := PyNone;
     app_SHEET_ID := PyNone;
     manual_sheet_input := None;
     text_input := ex_url;
     button := true |}.

(** ** A decimal parser and tables for the examples *)

Definition digit_of (c : ascii) : option Z :=
  let n := Z.of_nat (nat_of_ascii c) in
  if ((48 <=? n) && (n <=? 57))%Z then Some (n - 48)%Z else None.

Fixpoint digits_of (s : string) (acc : Z) : option Z :=
  match s with
  | EmptyString => Some acc
  | String c s' =>
      match digit_of c with
      | Some d => digits_of s' (10 * acc + d)%Z
      | None => None
      end
  end.

(** An optional minus sign and at least one digit. *)
Definition parse_decimal (s : string) : option Q :=
  match s with
  | EmptyString => None
  | String "-" EmptyString => None
  | String "-" s' => z ← digits_of s' 0%Z; Some (inject_Z (- z))
  | _ => z ← digits_of s 0%Z; Some (inject_Z z)
  end.

(** The usage and stock tables of the specification's example. *)
(** A stock frame with further columns, as [compute] may receive it:
    the [Component] column, and the columns besides it by label, each
    as long as the frame (a column with the label [Component] in
    [frame_others] is a second column of that label).  Frames that
    repeat a label other than [Component] are not represented. *)
Record stock_frame : Type := {
  frame_Component : list string;
  frame_others : gmap string (list cell)
}.

Definition ex_frame_note : stock_frame :=
  {| frame_Component := ["Bottle"; "Cap"];
     frame_others := {[ "Note" := [Str "recount"; NA] ]} |}.

Definition ex_frame_uom : stock_frame :=
  {| frame_Component := ["Bottle"; "Cap"];
     frame_others := {[ "UOM" := [Str "ea"; Str "ea"] ]} |}.

Definition ex_usage : list usage_row :=
  [ {| usage_Component := "Bottle"; usage_Per_Case := Num 12;
       usage_UOM := "ea" |};
    {| usage_Component := "Cap"; usage_Per_Case := Num 12;
       usage_UOM := "ea" |} ].

Definition ex_stock : stock_table :=
  StockOnHand [("Bottle", Num 100); ("Cap", Num 50)].





Definition ex_stock_bottles_only : stock_table :=
  StockOnHand [("Bottle", Num 100)].

Definition ex_formula_grid : list (list string) :=
  [["Component"; "Per_Case"; "UOM"]; ["Bottle"; "12"; "ea"];
   ["Cap"; "twelve"; "ea"]].


Definition ex_edited_no_on_hand : DataFrame :=
  {| columns := ["Component"; "UOM"; "Per_Case"];
     values := [[Str "Bottle"; Str "ea"; Num 12]] |}.

Definition ex_formula_grid_no_per_case : list (list string) :=
  [["Component"; "UOM"]; ["Bottle"; "ea"]; ["Cap"; "ea"]].

Definition ex_inventory_grid : list (list string) :=
  [["Component"; "On_Hand"]; ["Bottle"; "100"]; ["Cap"; "50"]].

Definition ex_sheet : gmap string grid :=
  {[ "INVENTORY" :=
       [[Str "Component"; Str "On_Hand"; Str "Note"];
        [Str "Bottle"; Str "100"; Str "recount"];
        [Str "Cap"; Str "50"; Str EmptyString];
        [Str "Label"; Str "7"; Str EmptyString]] ]}.

Definition ex_edited : DataFrame :=
  {| columns := ["Component"; "UOM"; "On_Hand"; "Per_Case"];
     values := [[Str "Bottle"; Str "ea"; Num 90; Num 12];
                [Str "Cap"; Str "ea"; Str "N/A"; Num 12]] |}.

(** * [compute] in binary64

    The same function with the numbers as pandas holds them: IEEE
    binary64 values ([spec_float] at precision 53), with rounded
    division, multiplication and subtraction, signed zeros, the
    infinities and NaN.  The statements about the value of [max_sell]
    and about [compute] returning are made on this embedding. *)
Module B64.

Definition prec : Z := 53.
Definition emax : Z := 1024.

Definition fdiv : spec_float -> spec_float -> spec_float := SFdiv prec emax.
Definition fmul : spec_float -> spec_float -> spec_float := SFmul prec emax.
Definition fsub : spec_float -> spec_float -> spec_float := SFsub prec emax.

Definition zero : spec_float := S754_zero false.

Definition is_nan (x : spec_float) : bool :=
  match x with
  | S754_nan => true
  | _ => false
  end.

(** Neither NaN nor an infinity. *)
Definition is_finite (x : spec_float) : bool :=
  match x with
  | S754_zero _ | S754_finite _ _ _ => true
  | _ => false
  end.

(** The rational number a finite value stands for. *)
Definition value (x : spec_float) : Q :=
  match x with
  | S754_finite s m e =>
      (inject_Z (if s then Z.neg m else Z.pos m) * Qpower 2 e)%Q
  | _ => 0%Q
  end.

(** A cell: a float (NaN included), a text, or the null marker. *)
Inductive cell : Type :=
  | Num (x : spec_float)
  | Str (s : string)
  | NA.

Record usage_row : Type := {
  usage_Component : string;
  usage_Per_Case : cell;
  usage_UOM : string
}.

Inductive stock_table : Type :=
  | StockOnHand (rows : list (string * cell))
  | StockNoOnHand (names : list string).

Record feas_row : Type := {
  Component : string;
  UOM : string;
  On_Hand : spec_float;
  Per_Case : spec_float;
  Required : spec_float;
  Remaining : spec_float
}.

(** [left.merge(right, on="Component", how="left")], as above. *)
Definition merge_left {A : Type} (left : list usage_row)
    (right : list (string * A)) (na : A) : list (usage_row * A) :=
  u ← left;
  match filter (fun r => r.1 = usage_Component u) right with
  | [] => [(u, na)]
  | ms => (fun r => (u, r.2)) <$> ms
  end.

Definition merge_on_hand (comps : list usage_row) (onhand : stock_table)
    : list (usage_row * cell) :=
  match onhand with
  | StockOnHand rows => merge_left comps rows NA
  | StockNoOnHand names =>
      (fun j => (j.1, Num zero)) <$>
        merge_left comps ((fun n => (n, ())) <$> names) ()
  end.

Definition joined_cell (onhand : stock_table) (name : string) (c : cell)
    : Prop :=
  match onhand with
  | StockOnHand rows => (name, c) ∈ rows \/ (c = NA /\ name ∉ fst <$> rows)
  | StockNoOnHand _ => c = Num zero
  end.

(** [Series.fillna(v)] on one element. *)
Definition fillna (v x : spec_float) : spec_float :=
  if is_nan x then v else x.

(** [Series.min()]: NaN values are skipped; NaN when nothing is left. *)
Definition fmin (a b : spec_float) : spec_float :=
  if SFltb b a then b else a.

Definition series_min (l : list spec_float) : spec_float :=
  match filter (fun x => is_nan x = false) l with
  | [] => S754_nan
  | x :: l' => foldl fmin x l'
  end.

(** [int(math.floor(x))]: [math.floor] raises [ValueError] on NaN and
    [OverflowError] on an infinity. *)
Definition math_floor (x : spec_float) : result Z :=
  match x with
  | S754_nan => Raise ValueError_nan
  | S754_infinity _ => Raise OverflowError
  | _ => Ok (Qfloor (value x))
  end.

Definition Component_le (r1 r2 : feas_row) : Prop :=
  Is_true (String.leb (Component r1) (Component r2)).

Global Instance Component_le_dec : RelDecision Component_le.
Proof. intros r1 r2. unfold Component_le. apply _. Defined.

Fixpoint insert_row (r : feas_row) (l : list feas_row) : list feas_row :=
  match l with
  | [] => [r]
  | x :: l' =>
      if decide (Component_le r x) then r :: l else x :: insert_row r l'
  end.

Definition sort_values (df : list feas_row) : list feas_row :=
  foldr insert_row [] df.

Section Coercion.

(** pandas' string-to-float conversion: [None] when the text is not a
    number; a text such as "inf" or "nan" gives that value. *)
Variable str_to_float : string -> option spec_float.

Definition to_numeric (mode : errors_mode) (c : cell) : result spec_float :=
  match c with
  | Num x => Ok x
  | NA => Ok S754_nan
  | Str s =>
      if String.eqb s EmptyString then Ok S754_nan
      else match str_to_float s with
           | Some x => Ok x
           | None =>
               match mode with
               | errors_raise => Raise (ValueError_parse s)
               | errors_coerce => Ok S754_nan
               end
           end
  end.

Definition coerce (c : cell) : result spec_float :=
  x ← to_numeric errors_coerce c; mret (fillna zero x).

(** Lines 164-167 of [compute] on one row. *)
Definition derive (cases : spec_float) (j : usage_row * cell)
    : result feas_row :=
  pc ← coerce (usage_Per_Case j.1);
  oh ← coerce j.2;
  let req := fmul pc cases in
  mret {| Component := usage_Component j.1;
          UOM := usage_UOM j.1;
          On_Hand := oh;
          Per_Case := pc;
          Required := req;
          Remaining := fsub oh req |}.

Definition ratio (r : feas_row) : spec_float :=
  fdiv (On_Hand r) (Per_Case r).

Definition compute (comps : list usage_row) (onhand : stock_table)
    (cases : spec_float) : result (list feas_row * Z * list feas_row) :=
  df ← mapM (derive cases) (merge_on_hand comps onhand);
  let candidates := filter (fun r => SFltb zero (Per_Case r) = true) df in
  max_sell ←
    (match candidates with
     | [] => mret 0%Z
     | _ => math_floor (series_min (ratio <$> candidates))
     end);
  let shortages := filter (fun r => SFltb (Remaining r) zero = true) df in
  let display := sort_values df in
  mret (display, max_sell, shortages).

(** *** Normal form: the coercion never raises *)

Definition coerced (c : cell) : spec_float :=
  match coerce c with
  | Ok x => x
  | Raise _ => zero
  end.

Definition derived (cases : spec_float) (j : usage_row * cell) : feas_row :=
  {| Component := usage_Component j.1;
     UOM := usage_UOM j.1;
     On_Hand := coerced j.2;
     Per_Case := coerced (usage_Per_Case j.1);
     Required := fmul (coerced (usage_Per_Case j.1)) cases;
     Remaining := fsub (coerced j.2)
                    (fmul (coerced (usage_Per_Case j.1)) cases) |}.

Definition derived_frame (comps : list usage_row) (onhand : stock_table)
    (cases : spec_float) : list feas_row :=
  derived cases <$> merge_on_hand comps onhand.

(** A row of the merged frame that limits the sale: a usage row with a
    positive coerced [Per_Case], beside a stock cell the merge attaches
    to it. *)
Definition limiting (comps : list usage_row) (onhand : stock_table)
    (u : usage_row) (c : cell) : Prop :=
  u ∈ comps /\ joined_cell onhand (usage_Component u) c /\
  SFltb zero (coerced (usage_Per_Case u)) = true.

(** [On_Hand / Per_Case] of such a row, in binary64. *)
Definition ratio_of (u : usage_row) (c : cell) : spec_float :=
  fdiv (coerced c) (coerced (usage_Per_Case u)).

(** The cells the coercion repairs: a null, a NaN, an empty text, a text
    that is not a number (or reads as NaN). *)
Definition malformed (c : cell) : Prop :=
  c = NA \/ c = Num S754_nan \/ c = Str EmptyString \/
  exists s, c = Str s /\
    (str_to_float s = None \/ str_to_float s = Some S754_nan).

Definition repair_cell (c : cell) : cell :=
  match to_numeric errors_coerce c with
  | Ok S754_nan => Num zero
  | _ => c
  end.

Definition repair_usage (u : usage_row) : usage_row :=
  {| usage_Component := usage_Component u;
     usage_Per_Case := repair_cell (usage_Per_Case u);
     usage_UOM := usage_UOM u |}.

Definition repair_stock (onhand : stock_table) : stock_table :=
  match onhand with
  | StockOnHand rows => StockOnHand (prod_map id repair_cell <$> rows)
  | StockNoOnHand names => StockNoOnHand names
  end.

End Coercion.

(** *** Example values: 0.5, 0.1, 0.3 and 2^1023 as binary64 *)

Definition half : spec_float := S754_finite false 4503599627370496 (-53).
Definition tenth : spec_float := S754_finite false 7205759403792794 (-56).
Definition three_tenths : spec_float :=
  S754_finite false 5404319552844595 (-54).
Definition huge : spec_float := S754_finite false 4503599627370496 971.

(** A parser for the examples: no text is a number. *)
Definition no_parse (s : string) : option spec_float := None.

Definition ex_usage_half : list usage_row :=
  [ {| usage_Component := "Bottle"; usage_Per_Case := Num half;
       usage_UOM := "ea" |};
    {| usage_Component := "Cap"; usage_Per_Case := Str "twelve";
       usage_UOM := "ea" |} ].

Definition ex_stock_huge : stock_table :=
  StockOnHand [("Bottle", Num huge); ("Cap", NA)].

Definition ex_usage_bottle_half : list usage_row :=
  [ {| usage_Component := "Bottle"; usage_Per_Case := Num half;
       usage_UOM := "ea" |} ].

Definition ex_stock_bottle_huge : stock_table :=
  StockOnHand [("Bottle", Num huge)].

Definition ex_usage_tenth : list usage_row :=
  [ {| usage_Component := "Syrup"; usage_Per_Case := Num tenth;
       usage_UOM := "L" |} ].

Definition ex_stock_three_tenths : stock_table :=
  StockOnHand [("Syrup", Num three_tenths)].

End B64.

Section Engine.

(** pandas' string-to-float conversion: [None] when the text is not a
    number. *)
Variable str_to_float : string -> option Q.

(** [pd.to_numeric(_, errors=mode)] on one element of an object column.
    [None] is NaN.  An empty text is NaN in either mode; a text that does
    not parse raises under [errors_raise] and is NaN under
    [errors_coerce], the mode every call of [app.py] uses. *)
Definition to_numeric (mode : errors_mode) (c : cell) : result (option Q) :=
  match c with
  | Num q => Ok (Some q)
  | NA => Ok None
  | Str s =>
      if String.eqb s EmptyString then Ok None
      else match str_to_float s with
           | Some q => Ok (Some q)
           | None =>
               match mode with
               | errors_raise => Raise (ValueError_parse s)
               | errors_coerce => Ok None
               end
           end
  end.

(** [pd.to_numeric(_, errors="coerce").fillna(0.0)], the coercion
    [compute] applies to [Per_Case] and [On_Hand]. *)
Definition coerce (c : cell) : result Q :=
  x ← to_numeric errors_coerce c; mret (fillna 0 x).

(** [pd.to_numeric(df[label], errors=mode)]: the argument must be
    one-dimensional. *)
Definition to_numeric_selection (mode : errors_mode) (sel : selection)
    : result (list (option Q)) :=
  match sel with
  | Series s => mapM (to_numeric mode) s
  | Frame _ => Raise TypeError_arg
  end.

(** Lines 164-167 of [compute] on one row. *)
Definition derive (cases : Q) (j : usage_row * cell) : result feas_row :=
  pc ← coerce (usage_Per_Case j.1);
  oh ← coerce j.2;
  let req := (pc * cases)%Q in
  mret {| Component := usage_Component j.1;
          UOM := usage_UOM j.1;
          On_Hand := oh;
          Per_Case := pc;
          Required := req;
          Remaining := (oh - req)%Q |}.

(** [compute(comps, onhand, cases)]: returns
    [(display, max_sell, shortages)]. *)
Definition compute (comps : list usage_row) (onhand : stock_table) (cases : Q)
    : result (list feas_row * Z * list feas_row) :=
  df ← mapM (derive cases) (merge_on_hand comps onhand);
  let candidates := filter (fun r => (0 < Per_Case r)%Q) df in
  max_sell ←
    (match candidates with
     | [] => mret 0%Z
     | _ => math_floor (series_min (ratio <$> candidates))
     end);
  let shortages := filter (fun r => (Remaining r < 0)%Q) df in
  let display := sort_values df in
  mret (display, max_sell, shortages).

(** Lines 135-139 of [load_data]: a column coerced in place when the
    frame has it. *)
Definition coerce_column (df : DataFrame) (label : string)
    : result DataFrame :=
  if bool_decide (label ∈ columns df) then
    sel ← getitem df label;
    s ← to_numeric_selection errors_coerce sel;
    mret (setitem df label (cell_of_float <$> s))
  else mret df.

(** [load_data(gc)], on the grids of the two worksheets.  Returns
    [(comps, onhand)]; the spreadsheet handle [sh] it also returns is
    left out. *)
Definition load_data (formula_grid inventory_grid : list (list string))
    : result (DataFrame * DataFrame) :=
  formula ← read_ws_df formula_grid;
  inv ← read_ws_df inventory_grid;
  formula ← coerce_column formula "Per_Case";
  inv ← coerce_column inv "On_Hand";
  let need := ["Component"; "Per_Case"] in
  if negb (issubset need (columns formula)) then
    Raise (ValueError_headers need (columns formula))
  else
    comps ← getitem_list formula ["Component"; "Per_Case"];
    comps ←
      (if bool_decide ("UOM" ∈ columns formula) then
         sel ← getitem formula "UOM";
         match sel with
         | Series s => mret (setitem comps "UOM" s)
         | Frame _ => Raise (ValueError_setitem "UOM")
         end
       else mret (setitem_scalar comps "UOM" (Str EmptyString)));
    onhand ←
      (if issubset ["Component"; "On_Hand"] (columns inv) then
         getitem_list inv ["Component"; "On_Hand"]
       else
         sel ← getitem comps "Component";
         match sel with
         | Series s =>
             mret {| columns := ["Component"; "On_Hand"];
                     values := (fun c => [c; Num 0]) <$> s |}
         | Frame _ => Raise ValueError_scalars
         end);
    mret (comps, onhand).

(** [write_onhand(sh, edited_df)].  [INVENTORY_WS] is the module-level
    title of the inventory worksheet, as [resolve_ws_names] found it.
    The spreadsheet is threaded through: the result is the outcome
    together with the spreadsheet as the call leaves it. *)
Definition write_onhand (INVENTORY_WS : string) (sh : gmap string grid)
    (edited_df : DataFrame) : result () * gmap string grid :=
  match sh !! INVENTORY_WS with
  | None => (Raise (WorksheetNotFound INVENTORY_WS), sh)
  | Some ws =>
      let vals :=
        out ← getitem_list edited_df ["Component"; "On_Hand"];
        sel ← getitem out "On_Hand";
        s ← to_numeric_selection errors_coerce sel;
        let out := setitem out "On_Hand" ((fun x => Num (fillna 0 x)) <$> s) in
        mret ((Str <$> columns out)
                :: ((fun row : list cell => blank_null <$> row) <$> values out)) in
      match vals with
      | Raise e => (Raise e, sh)
      | Ok vals =>
          let ws := ws_clear ws in
          let ws := ws_update vals ws in
          (Ok (), <[INVENTORY_WS := ws]> sh)
      end
  end.

(** ** The page: the edit table and the call of [compute]

    Lines 206-207 build [base], the merged frame with [On_Hand] coerced
    (without the guard of [compute]: the column must be there).  The
    data editor of lines 209-220 shows [base] with only [On_Hand]
    editable and returns the frame with that column as the user left
    it; line 238 passes its [Component] and [On_Hand] columns to
    [compute] as the stock table. *)

Definition base_frame (comps : list usage_row) (onhand : stock_table)
    : result (list (usage_row * Q)) :=
  match onhand with
  | StockOnHand rows =>
      mapM (fun j => oh ← coerce j.2; mret (j.1, oh))
        (merge_left comps rows NA)
  | StockNoOnHand _ => Raise (KeyError "On_Hand")
  end.

(** The stock table of line 238: the components of [base] beside the
    [On_Hand] column [edited_On_Hand] that the editor returned. *)
Definition edited_stock (base : list (usage_row * Q))
    (edited_On_Hand : list cell) : stock_table :=
  StockOnHand (zip ((fun b => usage_Component b.1) <$> base) edited_On_Hand).

Definition page_compute (comps : list usage_row) (onhand : stock_table)
    (edited_On_Hand : list cell) (cases : Q)
    : result (list feas_row * Z * list feas_row) :=
  base ← base_frame comps onhand;
  compute comps (edited_stock base edited_On_Hand) cases.

(** [compute] on a stock frame with further columns.  The merge of
    line 162 keeps the columns of both frames; a label that both frames
    have besides the key gets the suffixes [_x] and [_y], so that the
    merged frame has no column of that label any more: with [Per_Case]
    in the stock frame line 164 raises [KeyError], with [UOM] the
    selections of lines 172-173 do, after the lines before them ran.
    A second [Component] column makes the merge itself raise.  Other
    columns are carried along and dropped by the selections. *)
Definition compute_frame (comps : list usage_row) (onhand : stock_frame)
    (cases : Q) : result (list feas_row * Z * list feas_row) :=
  let others := frame_others onhand in
  if decide (is_Some (others !! "Component"))
  then Raise (ValueError_not_unique "Component")
  else if decide (is_Some (others !! "Per_Case"))
  then Raise (KeyError "Per_Case")
  else
    let stock :=
      match others !! "On_Hand" with
      | Some col => StockOnHand (zip (frame_Component onhand) col)
      | None => StockNoOnHand (frame_Component onhand)
      end in
    res ← compute comps stock cases;
    if decide (is_Some (others !! "UOM"))
    then Raise (KeyError "UOM")
    else mret res.

(** ** Normal form of [compute]

    With [errors="coerce"] no step of [compute] raises, so its result
    can be written without the monad. *)

Definition parsed (c : cell) : option Q :=
  match to_numeric errors_coerce c with
  | Ok x => x
  | Raise _ => None
  end.

Definition coerced (c : cell) : Q :=
  match coerce c with
  | Ok q => q
  | Raise _ => 0%Q
  end.

Definition derived (cases : Q) (j : usage_row * cell) : feas_row :=
  {| Component := usage_Component j.1;
     UOM := usage_UOM j.1;
     On_Hand := coerced j.2;
     Per_Case := coerced (usage_Per_Case j.1);
     Required := (coerced (usage_Per_Case j.1) * cases)%Q;
     Remaining := (coerced j.2 - coerced (usage_Per_Case j.1) * cases)%Q |}.

Definition derived_frame (comps : list usage_row) (onhand : stock_table)
    (cases : Q) : list feas_row :=
  derived cases <$> merge_on_hand comps onhand.

Definition candidates_of (df : list feas_row) : list feas_row :=
  filter (fun r => (0 < Per_Case r)%Q) df.

Definition max_sellable (df : list feas_row) : Z :=
  match candidates_of df with
  | [] => 0%Z
  | r :: rs => Qfloor (foldl Qmin (ratio r) (ratio <$> rs))
  end.

(** The block [write_onhand] sends to the worksheet: the two labels,
    then per row of the edited frame its component (a null shown as an
    empty text) and its coerced stock. *)
Definition onhand_block (edited_df : DataFrame) (i j : nat) : grid :=
  [Str "Component"; Str "On_Hand"]
  :: ((fun row => [blank_null (row_at row i); Num (coerced (row_at row j))])
        <$> values edited_df).

(** ** What [load_data] returns

    The frames [comps] and [onhand] written out, for a FORMULA frame
    with [Component] in column [i] and [Per_Case] in column [j] (and
    likewise for the inventory). *)

Definition uom_cell (cols : list string) (row : list cell) : cell :=
  match positions "UOM" cols with
  | [k] => row_at row k
  | _ => Str EmptyString
  end.

Definition comps_frame (formula : DataFrame) (i j : nat) : DataFrame :=
  {| columns := ["Component"; "Per_Case"; "UOM"];
     values := (fun row => [row_at row i;
                            cell_of_float (parsed (row_at row j));
                            uom_cell (columns formula) row])
                 <$> values formula |}.

Definition onhand_frame (inv : DataFrame) (i j : nat) : DataFrame :=
  {| columns := ["Component"; "On_Hand"];
     values := (fun row => [row_at row i;
                            cell_of_float (parsed (row_at row j))])
                 <$> values inv |}.

Definition zero_stock_frame (comps : DataFrame) : DataFrame :=
  {| columns := ["Component"; "On_Hand"];
     values := (fun row => [row_at row 0; Num 0]) <$> values comps |}.

(** A frame whose rows all have one cell per column. *)
Definition rectangular (df : DataFrame) : Prop :=
  Forall (fun row => length row = length (columns df)) (values df).

(** ** Facts about the coercion *)

Lemma coerce_Ok c : coerce c = Ok (coerced c).
Proof.
  unfold coerced, coerce.
  destruct c as [q|s|]; simpl; try reflexivity.
  destruct (String.eqb s EmptyString); simpl; [reflexivity|].
  destruct (str_to_float s); reflexivity.
Qed.

Lemma derive_Ok cases j : derive cases j = Ok (derived cases j).
Proof. unfold derive. rewrite !coerce_Ok. reflexivity. Qed.

Lemma mapM_Ok {A B : Type} (f : A -> result B) (g : A -> B) (l : list A) :
  (forall a, f a = Ok (g a)) -> mapM f l = Ok (g <$> l).
Proof.
  intros Hfg. induction l as [|a l IH]; simpl; [reflexivity|].
  rewrite Hfg. simpl. rewrite IH. reflexivity.
Qed.

Lemma compute_Ok comps onhand cases :
  compute comps onhand cases =
  Ok (sort_values (derived_frame comps onhand cases),
      max_sellable (derived_frame comps onhand cases),
      filter (fun r => (Remaining r < 0)%Q) (derived_frame comps onhand cases)).
Proof.
  unfold compute.
  rewrite (mapM_Ok _ (derived cases)) by apply derive_Ok.
  fold (derived_frame comps onhand cases). simpl.
  unfold max_sellable, candidates_of.
  destruct (filter (fun r => (0 < Per_Case r)%Q) _); reflexivity.
Qed.

(** ** Minimum of a series *)

Lemma Qmin_cases x y : Qmin x y = x \/ Qmin x y = y.
Proof.
  unfold Qmin, GenericMinMax.gmin. destruct (x ?= y)%Q; auto.
Qed.

Lemma foldl_Qmin_elem x l : foldl Qmin x l ∈ x :: l.
Proof.
  revert x. induction l as [|y l IH]; intros x; simpl.
  - apply list_elem_of_here.
  - specialize (IH (Qmin x y)).
    apply elem_of_cons in IH as [->|IH].
    + destruct (Qmin_cases x y) as [->| ->].
      * apply list_elem_of_here.
      * apply list_elem_of_further, list_elem_of_here.
    + do 2 apply list_elem_of_further. exact IH.
Qed.

Lemma foldl_Qmin_le_init x l : (foldl Qmin x l <= x)%Q.
Proof.
  revert x. induction l as [|y l IH]; intros x; simpl.
  - apply Qle_refl.
  - eapply Qle_trans; [apply IH|]. apply Q.le_min_l.
Qed.

Lemma foldl_Qmin_le x l y : y ∈ x :: l -> (foldl Qmin x l <= y)%Q.
Proof.
  revert x. induction l as [|z l IH]; intros x Hy.
  - apply list_elem_of_singleton in Hy as ->. apply Qle_refl.
  - simpl. apply elem_of_cons in Hy as [->|Hy].
    + eapply Qle_trans; [apply foldl_Qmin_le_init|]. apply Q.le_min_l.
    + apply elem_of_cons in Hy as [->|Hy].
      * eapply Qle_trans; [apply foldl_Qmin_le_init|]. apply Q.le_min_r.
      * apply IH. apply list_elem_of_further. exact Hy.
Qed.

(** ** Rows of the outputs *)

Lemma insert_row_Permutation r l : insert_row r l ≡ₚ r :: l.
Proof.
  induction l as [|x l IH]; [reflexivity|]. simpl.
  destruct (decide (Component_le r x)); [reflexivity|].
  by rewrite IH, Permutation_swap.
Qed.

Lemma sort_values_Permutation df : sort_values df ≡ₚ df.
Proof.
  induction df as [|r df IH]; [reflexivity|].
  unfold sort_values in *. simpl. by rewrite insert_row_Permutation, IH.
Qed.

Lemma elem_of_sort_values r df : r ∈ sort_values df <-> r ∈ df.
Proof. by rewrite sort_values_Permutation. Qed.

Lemma elem_of_candidates r df :
  r ∈ candidates_of df <-> (0 < Per_Case r)%Q /\ r ∈ df.
Proof.
  unfold candidates_of.
  apply (list_elem_of_filter (fun r => (0 < Per_Case r)%Q)).
Qed.

(** The limiting ratio, characterised: [max_sellable] is [0] without a
    candidate row, and otherwise the floor of the ratio of a candidate
    row that no candidate row undercuts. *)
Lemma max_sellable_spec df :
  ((forall r, r ∈ df -> ~ (0 < Per_Case r)%Q) -> max_sellable df = 0%Z) /\
  ((exists r, r ∈ df /\ (0 < Per_Case r)%Q) ->
   exists r, r ∈ df /\ (0 < Per_Case r)%Q /\
     (forall r', r' ∈ df -> (0 < Per_Case r')%Q ->
        (On_Hand r / Per_Case r <= On_Hand r' / Per_Case r')%Q) /\
     max_sellable df = Qfloor (On_Hand r / Per_Case r)).
Proof.
  unfold max_sellable. split.
  - intros Hnone. destruct (candidates_of df) as [|r rs] eqn:E; [reflexivity|].
    assert (Hr : r ∈ candidates_of df) by (rewrite E; apply list_elem_of_here).
    apply elem_of_candidates in Hr as [Hpos Hr]. destruct (Hnone r Hr Hpos).
  - intros (r0 & Hr0 & Hpos0).
    destruct (candidates_of df) as [|r rs] eqn:E.
    + assert (H : r0 ∈ candidates_of df) by (apply elem_of_candidates; auto).
      rewrite E in H. by apply elem_of_nil in H.
    + pose proof (foldl_Qmin_elem (ratio r) (ratio <$> rs)) as Hin.
      change (ratio r :: (ratio <$> rs)) with (ratio <$> (r :: rs)) in Hin.
      apply list_elem_of_fmap in Hin as (rm & Hm & Hrm).
      rewrite <- E in Hrm. apply elem_of_candidates in Hrm as [Hposm Hrm].
      exists rm. split; [exact Hrm|]. split; [exact Hposm|]. split.
      * intros r' Hr' Hpos'. fold (ratio rm) (ratio r'). rewrite <- Hm.
        apply foldl_Qmin_le.
        change (ratio r :: (ratio <$> rs)) with (ratio <$> (r :: rs)).
        apply list_elem_of_fmap. exists r'. split; [reflexivity|].
        rewrite <- E. apply elem_of_candidates. auto.
      * fold (ratio rm). by rewrite <- Hm.
Qed.

(** ** The left merge *)

Lemma filter_key_fst {A : Type} (k : string) (right : list (string * A)) :
  fst <$> filter (fun r => r.1 = k) right
  = filter (fun n => n = k) (fst <$> right).
Proof.
  induction right as [|[n a] right IH]; [reflexivity|].
  rewrite fmap_cons. simpl fst.
  destruct (decide (n = k)) as [Hk|Hk].
  - rewrite !filter_cons_True by exact Hk. rewrite fmap_cons, IH. reflexivity.
  - rewrite !filter_cons_False by exact Hk. exact IH.
Qed.

Lemma length_filter_key {A : Type} (k : string) (right : list (string * A)) :
  length (filter (fun r => r.1 = k) right) = occurrences k (fst <$> right).
Proof.
  unfold occurrences. rewrite <- filter_key_fst, length_fmap. reflexivity.
Qed.

Lemma merge_left_cons {A : Type} u left (right : list (string * A)) na :
  merge_left (u :: left) right na
  = match filter (fun r => r.1 = usage_Component u) right with
    | [] => [(u, na)]
    | ms => (fun r => (u, r.2)) <$> ms
    end ++ merge_left left right na.
Proof. unfold merge_left. by rewrite bind_cons. Qed.

(** The merged frame has, per left row, one row for each right row with
    its key, and one row when there is none. *)
Lemma length_merge_left {A : Type} left (right : list (string * A)) na :
  length (merge_left left right na)
  = sum_list ((fun u => Nat.max 1 (occurrences (usage_Component u)
                                     (fst <$> right))) <$> left).
Proof.
  induction left as [|u left IH]; [reflexivity|].
  rewrite merge_left_cons, length_app, IH, fmap_cons. simpl sum_list.
  f_equal. rewrite <- length_filter_key.
  destruct (filter _ right) as [|m ms]; [reflexivity|].
  rewrite length_fmap. simpl. reflexivity.
Qed.



Lemma length_merge_on_hand comps onhand :
  length (merge_on_hand comps onhand)
  = sum_list ((fun u => Nat.max 1 (occurrences (usage_Component u)
                                     (stock_names onhand))) <$> comps).
Proof.
  destruct onhand as [rows|names]; simpl.
  - apply length_merge_left.
  - rewrite length_fmap, length_merge_left, <- list_fmap_compose.
    change (fst ∘ _) with (@id string). by rewrite list_fmap_id.
Qed.

(** The number of display rows, in general. *)
Lemma length_display comps onhand cases :
  exists display max_sell shortages,
    compute comps onhand cases = Ok (display, max_sell, shortages) /\
    length display
    = sum_list ((fun u => Nat.max 1 (occurrences (usage_Component u)
                                       (stock_names onhand))) <$> comps).
Proof.
  eexists _, _, _. split; [apply compute_Ok|].
  rewrite sort_values_Permutation.
  unfold derived_frame. rewrite length_fmap. apply length_merge_on_hand.
Qed.


(** ** Where the rows of the merged frame come from *)

Lemma filter_key_nil {A : Type} (k : string) (right : list (string * A)) :
  filter (fun r => r.1 = k) right = [] <-> k ∉ fst <$> right.
Proof.
  split.
  - intros Hnil Hin. apply list_elem_of_fmap in Hin as ([n a] & -> & Hin).
    eapply (filter_nil_not_elem_of (fun r : string * A => r.1 = n));
      [exact Hnil| |exact Hin]. reflexivity.
  - intros Hnot. destruct (filter _ right) as [|m ms] eqn:E; [reflexivity|].
    assert (Hm : m ∈ filter (fun r : string * A => r.1 = k) right)
      by (rewrite E; apply list_elem_of_here).
    apply (list_elem_of_filter (fun r : string * A => r.1 = k)) in Hm
      as [Hk Hm].
    destruct Hnot. apply list_elem_of_fmap. exists m. by split.
Qed.

Lemma elem_of_merge_left {A : Type} u a left (right : list (string * A)) na :
  (u, a) ∈ merge_left left right na <->
  u ∈ left /\
  ((usage_Component u, a) ∈ right \/
   (a = na /\ usage_Component u ∉ fst <$> right)).
Proof.
  unfold merge_left. rewrite list_elem_of_bind. split.
  - intros (u' & Hin & Hu').
    destruct (filter _ right) as [|m ms] eqn:E.
    + apply list_elem_of_singleton in Hin. injection Hin as -> ->.
      split; [exact Hu'|]. right. split; [reflexivity|].
      by apply filter_key_nil.
    + apply list_elem_of_fmap in Hin as ([n b] & Heq & Hin).
      injection Heq as -> ->. split; [exact Hu'|]. left.
      rewrite <- E in Hin.
      apply (list_elem_of_filter
               (fun r : string * A => r.1 = usage_Component u')) in Hin
        as [Hk Hin].
      simpl in Hk. by rewrite <- Hk.
  - intros [Hu [Hin|[-> Hnot]]]; exists u; (split; [|exact Hu]).
    + assert (Hf : (usage_Component u, a)
                   ∈ filter (fun r : string * A => r.1 = usage_Component u)
                       right)
        by (apply list_elem_of_filter; by split).
      destruct (filter _ right) as [|m ms]; [by apply elem_of_nil in Hf|].
      apply list_elem_of_fmap. by exists (usage_Component u, a).
    + apply filter_key_nil in Hnot. rewrite Hnot. apply list_elem_of_here.
Qed.

Lemma elem_of_merge_on_hand u c comps onhand :
  (u, c) ∈ merge_on_hand comps onhand <->
  u ∈ comps /\ joined_cell onhand (usage_Component u) c.
Proof.
  destruct onhand as [rows|names]; simpl.
  - apply elem_of_merge_left.
  - rewrite list_elem_of_fmap. split.
    + intros ([u' []] & Heq & Hin). injection Heq as -> ->.
      apply elem_of_merge_left in Hin as [Hu _]. by split.
    + intros [Hu ->].
      destruct (decide (usage_Component u ∈ names)) as [Hn|Hn].
      * exists (u, ()). split; [reflexivity|].
        apply elem_of_merge_left. split; [exact Hu|]. left.
        apply list_elem_of_fmap. by exists (usage_Component u).
      * exists (u, ()). split; [reflexivity|].
        apply elem_of_merge_left. split; [exact Hu|]. right.
        split; [reflexivity|].
        rewrite <- list_fmap_compose. change (fst ∘ _) with (@id string).
        by rewrite list_fmap_id.
Qed.

Lemma elem_of_derived_frame r comps onhand cases :
  r ∈ derived_frame comps onhand cases <->
  exists u c, u ∈ comps /\ joined_cell onhand (usage_Component u) c /\
    r = derived cases (u, c).
Proof.
  unfold derived_frame. rewrite list_elem_of_fmap. split.
  - intros ([u c] & -> & Hin). apply elem_of_merge_on_hand in Hin as [Hu Hc].
    by exists u, c.
  - intros (u & c & Hu & Hc & ->). exists (u, c). split; [reflexivity|].
    by apply elem_of_merge_on_hand.
Qed.

Lemma coerce_inv c q : coerce c = Ok q -> q = coerced c.
Proof. rewrite coerce_Ok. congruence. Qed.

Lemma coerced_NA : coerced NA = 0%Q.
Proof. reflexivity. Qed.

(** ** Sign of the result *)

Lemma Qfloor_nonneg q : (0 <= q)%Q -> (0 <= Qfloor q)%Z.
Proof. intros Hq. apply (Qfloor_resp_le 0 q Hq). Qed.

Lemma ratio_nonneg r :
  (0 <= On_Hand r)%Q -> (0 < Per_Case r)%Q ->
  (0 <= On_Hand r / Per_Case r)%Q.
Proof.
  intros Hoh Hpc. apply Qle_shift_div_l; [exact Hpc|].
  by rewrite Qmult_0_l.
Qed.





(** ** Merging related tables *)

(** Two pairs of tables whose rows correspond one to one, with the same
    keys, give merged frames whose rows correspond one to one. *)
Lemma merge_left_Forall2 {A B : Type} (Ru : usage_row -> usage_row -> Prop)
    (R : A -> B -> Prop) left1 left2
    (right1 : list (string * A)) (right2 : list (string * B)) na1 na2 :
  (forall u1 u2, Ru u1 u2 -> usage_Component u1 = usage_Component u2) ->
  Forall2 Ru left1 left2 ->
  Forall2 (fun r1 r2 => r1.1 = r2.1 /\ R r1.2 r2.2) right1 right2 ->
  R na1 na2 ->
  Forall2 (fun j1 j2 => Ru j1.1 j2.1 /\ R j1.2 j2.2)
    (merge_left left1 right1 na1) (merge_left left2 right2 na2).
Proof.
  intros Hkey Hleft Hright Hna. unfold merge_left.
  apply Forall2_bind. eapply Forall2_impl; [exact Hleft|].
  intros u1 u2 Hu. cbv beta.
  assert (Hf : Forall2 (fun r1 r2 => r1.1 = r2.1 /\ R r1.2 r2.2)
                 (filter (fun r : string * A => r.1 = usage_Component u1)
                    right1)
                 (filter (fun r : string * B => r.1 = usage_Component u2)
                    right2)).
  { apply Forall2_filter; [|exact Hright].
    intros r1 r2 [Hk _]. rewrite Hk, (Hkey _ _ Hu). tauto. }
  destruct Hf as [|m1 m2 ms1 ms2 Hm Hms].
  - repeat constructor; simpl; assumption.
  - apply Forall2_fmap. constructor.
    + simpl. split; [exact Hu|apply Hm].
    + eapply Forall2_impl; [exact Hms|]. intros r1 r2 [_ HR]. by split.
Qed.

Lemma Forall2_diag {A : Type} (R : A -> A -> Prop) (l : list A) :
  (forall x, R x x) -> Forall2 R l l.
Proof. intros HR. apply Forall_Forall2_diag, Forall_forall. auto. Qed.

Lemma derived_ext cases j1 j2 :
  j1.1 = j2.1 -> coerced j1.2 = coerced j2.2 ->
  derived cases j1 = derived cases j2.
Proof. unfold derived. by intros -> ->. Qed.

Lemma fmap_eq_Forall2 {A B : Type} (f : A -> B) (l1 l2 : list A) :
  Forall2 (fun x1 x2 => f x1 = f x2) l1 l2 -> f <$> l1 = f <$> l2.
Proof. intros H. by apply list_eq_Forall2, Forall2_fmap. Qed.

(** ** Malformed cells *)

(** ** A stock table without [On_Hand] *)

Lemma derived_frame_no_on_hand comps names cases :
  derived_frame comps (StockNoOnHand names) cases
  = derived_frame comps (StockOnHand ((fun n => (n, Num 0)) <$> names)) cases.
Proof.
  unfold derived_frame. apply fmap_eq_Forall2. simpl.
  apply Forall2_fmap_l. eapply Forall2_impl.
  - apply (merge_left_Forall2 eq (fun (_ : ()) c => coerced c = 0%Q));
      [by intros ? ? ->|by apply Forall2_diag| |reflexivity].
    apply Forall2_fmap, Forall2_diag. by intros n.
  - intros [u1 []] [u2 c2] [Hu Hc]. simpl in *. subst u2.
    apply derived_ext; [reflexivity|]. simpl. by rewrite Hc.
Qed.

(** A stock table of components only: every row [compute] returns has
    [On_Hand = 0.0], and the result is the one for the same components
    with [On_Hand = 0.0] on every row. *)
Lemma compute_names_only comps names cases :
  exists display max_sell shortages,
    compute comps (StockNoOnHand names) cases
    = Ok (display, max_sell, shortages) /\
    compute comps (StockNoOnHand names) cases
    = compute comps (StockOnHand ((fun n => (n, Num 0)) <$> names)) cases /\
    (forall r, r ∈ display \/ r ∈ shortages -> On_Hand r = 0%Q).
Proof.
  eexists _, _, _. split; [apply compute_Ok|]. split.
  { by rewrite !compute_Ok, derived_frame_no_on_hand. }
  intros r Hr.
  assert (Hdf : r ∈ derived_frame comps (StockNoOnHand names) cases).
  { destruct Hr as [Hr|Hr]; [apply elem_of_sort_values, Hr|].
    apply (list_elem_of_filter (fun r => (Remaining r < 0)%Q)) in Hr
      as [_ Hr]. exact Hr. }
  apply elem_of_derived_frame in Hdf as (u & c & _ & Hc & ->).
  simpl in Hc. by subst c.
Qed.

Lemma zip_replicate_r {A B : Type} (l : list A) (b : B) :
  zip l (replicate (length l) b) = (fun a => (a, b)) <$> l.
Proof. induction l as [|a l IH]; [reflexivity|]. simpl. by rewrite IH. Qed.

(** C10, amended: called with a stock frame that has one [Component]
    column, no [On_Hand] column and no column labelled [Per_Case] or
    [UOM] (whatever other columns it has), [compute] returns; every row
    it returns has [On_Hand = 0.0]; and the result is the one it gives
    for the same frame with a column [On_Hand] of [0.0] added. *)
Theorem compute_frame_without_on_hand comps onhand cases :
  frame_others onhand !! "On_Hand" = None ->
  frame_others onhand !! "Per_Case" = None ->
  frame_others onhand !! "UOM" = None ->
  frame_others onhand !! "Component" = None ->
  exists display max_sell shortages,
    compute_frame comps onhand cases = Ok (display, max_sell, shortages) /\
    compute_frame comps onhand cases
    = compute_frame comps
        {| frame_Component := frame_Component onhand;
           frame_others :=
             <["On_Hand" := replicate (length (frame_Component onhand))
                              (Num 0)]> (frame_others onhand) |} cases /\
    (forall r, r ∈ display \/ r ∈ shortages -> On_Hand r = 0%Q).
Proof.
  intros Ho Hp Hu Hc.
  destruct (compute_names_only comps (frame_Component onhand) cases)
    as (display & max_sell & shortages & Hret & Heq & Hzero).
  exists display, max_sell, shortages.
  assert (Hl : compute_frame comps onhand cases
               = Ok (display, max_sell, shortages)).
  { unfold compute_frame. cbv zeta. rewrite Hc, Hp, Ho, Hu.
    rewrite !decide_False by (by intros [? ?]).
    by rewrite Hret. }
  split; [exact Hl|]. split; [|exact Hzero].
  rewrite Hl. unfold compute_frame. cbv zeta. cbn [frame_others frame_Component].
  rewrite lookup_insert_eq, !lookup_insert_ne by done.
  rewrite Hc, Hp, Hu.
  rewrite !decide_False by (by intros [? ?]).
  by rewrite zip_replicate_r, <- Heq, Hret.
Qed.

(** ** Monotonicity in the stock *)







(** ** Labels and positions *)

Lemma length_positions_from i0 label cols :
  length (positions_from i0 label cols) = occurrences label cols.
Proof.
  unfold occurrences. revert i0.
  induction cols as [|c cols IH]; intros i0; [reflexivity|].
  simpl. rewrite filter_cons.
  destruct (decide (c = label)); simpl; by rewrite IH.
Qed.

Lemma elem_of_positions_from i0 label cols i :
  i ∈ positions_from i0 label cols ->
  exists k, i = (i0 + k)%nat /\ cols !! k = Some label.
Proof.
  revert i0. induction cols as [|c cols IH]; intros i0; simpl.
  - intros H. by apply elem_of_nil in H.
  - destruct (decide (c = label)) as [->|_].
    + intros [->|Hin]%elem_of_cons.
      * exists 0%nat. split; [lia|reflexivity].
      * destruct (IH _ Hin) as (k & -> & Hk). exists (S k). split; [lia|done].
    + intros Hin. destruct (IH _ Hin) as (k & -> & Hk).
      exists (S k). split; [lia|done].
Qed.

Lemma positions_singleton label cols i :
  positions label cols = [i] -> cols !! i = Some label.
Proof.
  intros Hp.
  destruct (elem_of_positions_from 0 label cols i) as (k & -> & Hk); [|done].
  fold (positions label cols). rewrite Hp. apply list_elem_of_here.
Qed.

Lemma positions_nil label cols : positions label cols = [] <-> label ∉ cols.
Proof.
  unfold positions. generalize 0%nat.
  induction cols as [|c cols IH]; intros i0; simpl.
  - split; [intros _; apply not_elem_of_nil|done].
  - rewrite not_elem_of_cons. destruct (decide (c = label)) as [->|Hne].
    + split; [discriminate|]. by intros [? _].
    + rewrite IH. split; [by split|tauto].
Qed.

Lemma positions_unique label cols :
  occurrences label cols = 1%nat -> exists i, positions label cols = [i].
Proof.
  rewrite <- (length_positions_from 0). fold (positions label cols).
  destruct (positions label cols) as [|i [|j ps]]; simpl; try discriminate.
  intros _. by exists i.
Qed.

Lemma issubset_true labels cols :
  issubset labels cols = true <-> forall l, l ∈ labels -> l ∈ cols.
Proof.
  unfold issubset. rewrite forallb_forall. split.
  - intros H l Hl. apply list_elem_of_In, H in Hl.
    by apply bool_decide_eq_true in Hl.
  - intros H l Hl. apply bool_decide_eq_true, H. by apply list_elem_of_In.
Qed.

(** ** Column coercion on frames *)

Lemma to_numeric_coerce_Ok c : to_numeric errors_coerce c = Ok (parsed c).
Proof.
  unfold parsed. destruct c as [q|s|]; simpl; try reflexivity.
  destruct (String.eqb s EmptyString); [reflexivity|].
  destruct (str_to_float s); reflexivity.
Qed.

Lemma coerced_parsed c : coerced c = fillna 0 (parsed c).
Proof. unfold coerced, coerce. by rewrite to_numeric_coerce_Ok. Qed.

Lemma to_numeric_series_Ok s :
  to_numeric_selection errors_coerce (Series s) = Ok (parsed <$> s).
Proof. simpl. apply mapM_Ok, to_numeric_coerce_Ok. Qed.

Lemma setitem_columns df label s :
  label ∈ columns df -> columns (setitem df label s) = columns df.
Proof.
  intros Hin. unfold setitem.
  destruct (positions label (columns df)) eqn:E; [|reflexivity].
  by apply positions_nil in E.
Qed.

Lemma coerce_column_columns df label df' :
  coerce_column df label = Ok df' -> columns df' = columns df.
Proof.
  unfold coerce_column. case_bool_decide as Hin; [|by intros [= <-]].
  destruct (getitem df label) as [sel|e]; [|discriminate]. simpl.
  destruct (to_numeric_selection errors_coerce sel) as [s|e]; [|discriminate].
  simpl. intros [= <-]. by apply setitem_columns.
Qed.

Lemma coerce_column_returns df label :
  (occurrences label (columns df) <= 1)%nat ->
  returns (coerce_column df label).
Proof.
  intros Hocc. unfold coerce_column. case_bool_decide as Hin; [|by eexists].
  unfold getitem. rewrite <- (length_positions_from 0) in Hocc.
  fold (positions label (columns df)) in Hocc.
  destruct (positions label (columns df)) as [|i [|j ps]] eqn:E.
  - by apply positions_nil in E.
  - simpl. rewrite (mapM_Ok _ parsed) by apply to_numeric_coerce_Ok.
    by eexists.
  - simpl in Hocc. lia.
Qed.

(** A duplicated label makes [df[label]] a frame, which [pd.to_numeric]
    refuses. *)
Lemma coerce_column_duplicated df label :
  (1 < occurrences label (columns df))%nat ->
  coerce_column df label = Raise TypeError_arg.
Proof.
  intros Hocc. unfold coerce_column, getitem.
  rewrite <- (length_positions_from 0) in Hocc.
  fold (positions label (columns df)) in Hocc.
  destruct (positions label (columns df)) as [|i [|j ps]] eqn:E;
    simpl in Hocc; try lia.
  rewrite bool_decide_eq_true_2; [reflexivity|].
  destruct (decide (label ∈ columns df)) as [|Hn]; [done|].
  apply positions_nil in Hn. congruence.
Qed.

Lemma read_ws_df_columns grid df :
  read_ws_df grid = Ok df -> columns df = headers grid.
Proof.
  destruct grid as [|h rows]; simpl; [by intros [= <-]|].
  unfold DataFrame_of_rows.
  destruct (_ <$> rows); [by intros [= <-]|].
  case_decide; [by intros [= <-]|discriminate].
Qed.

(** C8: when the header row of the FORMULA worksheet lacks [Component]
    or [Per_Case], [load_data] raises and returns no table; and whenever
    both worksheets make a frame and neither [Per_Case] nor [On_Hand] is
    a duplicated header, what it raises is the error of line 143,
    [ValueError("FORMULA must have headers: ['Component', 'Per_Case'].
    Found: ...")], with the headers it found. *)
Theorem load_data_missing_columns formula_grid inventory_grid :
  "Component" ∉ headers formula_grid \/ "Per_Case" ∉ headers formula_grid ->
  raises (load_data formula_grid inventory_grid) /\
  (returns (read_ws_df formula_grid) ->
   returns (read_ws_df inventory_grid) ->
   (occurrences "Per_Case" (headers formula_grid) <= 1)%nat ->
   (occurrences "On_Hand" (headers inventory_grid) <= 1)%nat ->
   load_data formula_grid inventory_grid
   = Raise (ValueError_headers ["Component"; "Per_Case"]
              (headers formula_grid))).
Proof.
  intros Hlack.
  assert (Hmain : forall formula inv formula' inv',
    read_ws_df formula_grid = Ok formula ->
    read_ws_df inventory_grid = Ok inv ->
    coerce_column formula "Per_Case" = Ok formula' ->
    coerce_column inv "On_Hand" = Ok inv' ->
    load_data formula_grid inventory_grid
    = Raise (ValueError_headers ["Component"; "Per_Case"]
               (headers formula_grid))).
  { intros formula inv formula' inv' Hf Hi Hf' Hi'.
    unfold load_data. rewrite Hf. simpl. rewrite Hi. simpl.
    rewrite Hf'. simpl. rewrite Hi'. simpl.
    assert (Hcols : columns formula' = headers formula_grid).
    { rewrite (coerce_column_columns _ _ _ Hf').
      by apply read_ws_df_columns. }
    rewrite Hcols.
    destruct (issubset ["Component"; "Per_Case"] (headers formula_grid))
      eqn:Hsub; [|reflexivity].
    rewrite issubset_true in Hsub.
    destruct Hlack as [Hn|Hn]; destruct Hn; apply Hsub;
      repeat first [apply list_elem_of_here | apply list_elem_of_further]. }
  split.
  - unfold raises.
    destruct (read_ws_df formula_grid) as [formula|e] eqn:Hf;
      [|unfold load_data; rewrite Hf; by eexists].
    destruct (read_ws_df inventory_grid) as [inv|e] eqn:Hi;
      [|unfold load_data; rewrite Hf; simpl; rewrite Hi; by eexists].
    destruct (coerce_column formula "Per_Case") as [formula'|e] eqn:Hf';
      [|unfold load_data; rewrite Hf; simpl; rewrite Hi; simpl;
        rewrite Hf'; by eexists].
    destruct (coerce_column inv "On_Hand") as [inv'|e] eqn:Hi';
      [|unfold load_data; rewrite Hf; simpl; rewrite Hi; simpl;
        rewrite Hf'; simpl; rewrite Hi'; by eexists].
    eexists. by eapply Hmain.
  - intros [formula Hf] [inv Hi] Hpc Hoh.
    rewrite <- (read_ws_df_columns _ _ Hf) in Hpc.
    rewrite <- (read_ws_df_columns _ _ Hi) in Hoh.
    destruct (coerce_column_returns _ _ Hpc) as [formula' Hf'].
    destruct (coerce_column_returns _ _ Hoh) as [inv' Hi'].
    by eapply Hmain.
Qed.

(** ** Writing the stock back *)

Lemma ws_update_nil vals : ws_update vals [] = vals.
Proof. induction vals as [|v vals IH]; simpl; [reflexivity|by rewrite IH]. Qed.

Lemma getitem_list_pair df l1 l2 i j :
  positions l1 (columns df) = [i] ->
  positions l2 (columns df) = [j] ->
  getitem_list df [l1; l2]
  = Ok {| columns := [l1; l2];
          values := (fun row => [row_at row i; row_at row j]) <$> values df |}.
Proof.
  intros Hi Hj. unfold getitem_list. simpl. rewrite Hi. simpl.
  rewrite Hj. simpl. unfold take_columns. simpl.
  by rewrite (positions_singleton _ _ _ Hi), (positions_singleton _ _ _ Hj).
Qed.

(** ** More about [compute]: order size, shortages and the limit *)

Lemma derived_On_Hand_nonneg comps onhand cases r :
  (forall c q, c ∈ stock_cells onhand -> coerce c = Ok q -> (0 <= q)%Q) ->
  r ∈ derived_frame comps onhand cases -> (0 <= On_Hand r)%Q.
Proof.
  intros Hnonneg Hr.
  apply elem_of_derived_frame in Hr as (u & c & _ & Hc & ->). simpl.
  destruct onhand as [rows|names]; simpl in Hc.
  - destruct Hc as [Hin|[-> _]]; [|by rewrite coerced_NA].
    apply (Hnonneg c); [|apply coerce_Ok].
    apply list_elem_of_fmap. by exists (usage_Component u, c).
  - by subst c.
Qed.




(** ** The order of the display table *)

Lemma ascii_compare_trans_lt a b c :
  Ascii.compare a b = Lt -> Ascii.compare b c = Lt -> Ascii.compare a c = Lt.
Proof.
  unfold Ascii.compare. rewrite !N.compare_lt_iff. apply N.lt_trans.
Qed.

Lemma string_compare_trans_le s1 s2 s3 :
  String.compare s1 s2 <> Gt -> String.compare s2 s3 <> Gt ->
  String.compare s1 s3 <> Gt.
Proof.
  revert s2 s3. induction s1 as [|a s1 IH]; intros [|b s2] [|c s3];
    simpl; try done.
  destruct (Ascii.compare a b) eqn:Hab; [| |done];
    destruct (Ascii.compare b c) eqn:Hbc; try done.
  - apply Ascii.compare_eq_iff in Hab, Hbc. subst b c.
    assert (Haa : Ascii.compare a a = Eq)
      by (unfold Ascii.compare; apply N.compare_refl).
    rewrite Haa. apply IH.
  - apply Ascii.compare_eq_iff in Hab. subst b. by rewrite Hbc.
  - apply Ascii.compare_eq_iff in Hbc. subst c. by rewrite Hab.
  - by rewrite (ascii_compare_trans_lt _ _ _ Hab Hbc).
Qed.

Lemma String_leb_le s1 s2 :
  Is_true (String.leb s1 s2) <-> String.compare s1 s2 <> Gt.
Proof. unfold String.leb. destruct (String.compare s1 s2); simpl; split; done. Qed.

Global Instance Component_le_total : Total Component_le.
Proof.
  intros r1 r2. unfold Component_le.
  destruct (String.leb_total (Component r1) (Component r2)) as [H|H];
    rewrite H; [by left|by right].
Qed.

Global Instance Component_le_trans : Transitive Component_le.
Proof.
  intros r1 r2 r3. unfold Component_le. rewrite !String_leb_le.
  apply string_compare_trans_le.
Qed.




(** X6: when a usage row with a positive [Per_Case] has no row in the
    stock table, and no stock value is negative, the limit [max_sell]
    that [compute] returns is [0]. *)
Theorem compute_missing_stock_blocks comps onhand cases u pc :
  u ∈ comps -> coerce (usage_Per_Case u) = Ok pc -> (0 < pc)%Q ->
  usage_Component u ∉ stock_names onhand ->
  (forall c q, c ∈ stock_cells onhand -> coerce c = Ok q -> (0 <= q)%Q) ->
  exists display shortages,
    compute comps onhand cases = Ok (display, 0%Z, shortages).
Proof.
  intros Hu Hpc Hpos Hmiss Hnonneg. apply coerce_inv in Hpc. subst pc.
  eexists _, _. rewrite compute_Ok. do 3 f_equal.
  set (df := derived_frame comps onhand cases).
  assert (Hc : exists c, joined_cell onhand (usage_Component u) c /\
                         coerced c = 0%Q).
  { destruct onhand as [rows|names]; simpl in *.
    - exists NA. split; [by right|reflexivity].
    - by exists (Num 0). }
  destruct Hc as (c & Hc & Hzero).
  assert (Hr0 : derived cases (u, c) ∈ df)
    by (apply elem_of_derived_frame; by exists u, c).
  destruct (max_sellable_spec df) as [_ H1].
  destruct H1 as (rm & Hrm & Hposm & Hmin & ->); [by eexists|].
  apply Z.le_antisymm.
  - specialize (Hmin _ Hr0 Hpos). simpl in Hmin. rewrite Hzero in Hmin.
    apply (Qfloor_resp_le _ 0). eapply Qle_trans; [exact Hmin|].
    unfold Qdiv. by rewrite Qmult_0_l.
  - apply Qfloor_nonneg, ratio_nonneg; [|exact Hposm].
    by eapply derived_On_Hand_nonneg.
Qed.

(** ** The page: what the edit table does to the merge *)

Lemma merge_left_app_notin {A : Type} left (r1 r2 : list (string * A)) na :
  (forall u, u ∈ left -> usage_Component u ∉ fst <$> r1) ->
  merge_left left (r1 ++ r2) na = merge_left left r2 na.
Proof.
  induction left as [|u left IH]; intros Hnot; [reflexivity|].
  rewrite !merge_left_cons, filter_app, IH.
  2:{ intros u' Hu'. apply Hnot. by apply list_elem_of_further. }
  rewrite (proj2 (filter_key_nil (usage_Component u) r1)); [reflexivity|].
  apply Hnot, list_elem_of_here.
Qed.

Lemma filter_key_all {A : Type} (k : string) (l : list (string * A)) :
  Forall (fun r => r.1 = k) l -> filter (fun r => r.1 = k) l = l.
Proof.
  induction 1 as [|r l Hr _ IH]; [reflexivity|].
  by rewrite filter_cons_True, IH.
Qed.

Lemma fmap_const_replicate {A B : Type} (b : B) (l : list A) :
  (fun _ => b) <$> l = replicate (length l) b.
Proof. induction l as [|a l IH]; simpl; [reflexivity|by rewrite <- IH]. Qed.

Lemma zip_replicate_fmap {A B : Type} (n : nat) (a : A) (l : list B) :
  length l = n -> zip (replicate n a) l = (fun b => (a, b)) <$> l.
Proof.
  intros <-. induction l as [|b l IH]; simpl; [reflexivity|by rewrite IH].
Qed.

(** The rows of a merged frame, by usage row: each usage row as often as
    the stock table has its component, and once when it has not. *)
Lemma merge_left_fst {A : Type} left (right : list (string * A)) na :
  fst <$> merge_left left right na
  = left ≫= (fun u => replicate
                (Nat.max 1 (occurrences (usage_Component u) (fst <$> right)))
                u).
Proof.
  induction left as [|u left IH]; [reflexivity|].
  rewrite merge_left_cons, fmap_app, IH, bind_cons. f_equal.
  rewrite <- length_filter_key.
  destruct (filter _ right) as [|m ms]; [reflexivity|].
  rewrite <- list_fmap_compose.
  change (fst ∘ _) with (fun _ : string * A => u).
  rewrite fmap_const_replicate. reflexivity.
Qed.

(** Merging a frame with a stock table made of its own rows: with
    distinct usage components every row finds exactly its own value. *)
Lemma merge_left_replicated {A : Type} (k : usage_row -> nat) comps
    (edits : list A) na :
  NoDup (usage_Component <$> comps) ->
  (forall u, 1 <= k u) ->
  length edits = length (comps ≫= (fun u => replicate (k u) u)) ->
  merge_left comps
    (zip (usage_Component <$> (comps ≫= (fun u => replicate (k u) u))) edits)
    na
  = zip (comps ≫= (fun u => replicate (k u) u)) edits.
Proof.
  intros Hnd Hk. revert edits.
  induction comps as [|u comps IH]; intros edits Hlen; [reflexivity|].
  rewrite fmap_cons in Hnd. apply NoDup_cons in Hnd as [Hu Hnd].
  rewrite bind_cons in *. rewrite length_app, length_replicate in Hlen.
  set (us := comps ≫= (fun u => replicate (k u) u)) in *.
  rewrite <- (take_drop (k u) edits).
  set (e1 := take (k u) edits). set (e2 := drop (k u) edits).
  assert (He1 : length e1 = k u) by (unfold e1; rewrite length_take; lia).
  assert (He2 : length e2 = length us)
    by (unfold e2; rewrite length_drop; lia).
  rewrite fmap_app, fmap_replicate.
  rewrite !zip_with_app by (by rewrite length_replicate).
  rewrite !zip_replicate_fmap by exact He1.
  assert (Hus : forall u', u' ∈ comps ->
            usage_Component u'
            ∉ fst <$> ((fun b => (usage_Component u, b)) <$> e1)).
  { intros u' Hu' Hin. rewrite <- list_fmap_compose in Hin.
    apply list_elem_of_fmap in Hin as (b & Hb & _). simpl in Hb.
    apply Hu. rewrite <- Hb. by apply list_elem_of_fmap_2. }
  rewrite merge_left_cons, filter_app.
  rewrite filter_key_all.
  2:{ apply Forall_forall. intros r Hr.
      by apply list_elem_of_fmap in Hr as (b & -> & _). }
  rewrite (proj2 (filter_key_nil (usage_Component u) _)).
  2:{ intros Hin. apply Hu.
      rewrite fst_zip in Hin by (rewrite length_fmap; lia).
      apply list_elem_of_fmap in Hin as (u' & -> & Hu').
      apply list_elem_of_fmap_2.
      unfold us in Hu'. apply list_elem_of_bind in Hu' as (u0 & Hin0 & Hu0).
      apply elem_of_replicate_inv in Hin0. by subst u'. }
  rewrite app_nil_r, merge_left_app_notin by exact Hus.
  rewrite IH by (exact Hnd || exact He2). f_equal.
  destruct e1 as [|b e1']; [simpl in He1; specialize (Hk u); lia|].
  cbn [fmap list_fmap]. f_equal.
  change (list_fmap ?X ?Y ?f ?l) with (f <$> l).
  by rewrite <- list_fmap_compose.
Qed.

Lemma base_frame_Ok comps rows :
  base_frame comps (StockOnHand rows)
  = Ok ((fun j => (j.1, coerced j.2)) <$> merge_left comps rows NA).
Proof.
  unfold base_frame. apply mapM_Ok. intros j. by rewrite coerce_Ok.
Qed.

Lemma zip_fmap_fst_snd {A B C : Type} (g : B -> C) (l : list (A * B)) :
  zip (fst <$> l) (g ∘ snd <$> l) = (fun j => (j.1, g j.2)) <$> l.
Proof.
  induction l as [|[a b] l IH]; [reflexivity|].
  rewrite !fmap_cons. cbn [zip_with]. by rewrite IH.
Qed.

(** The merged frame of the page's call of [compute]: the rows of the
    edit table with the values the editor returned. *)
Lemma page_merge comps rows edited_On_Hand :
  NoDup (usage_Component <$> comps) ->
  length edited_On_Hand = length (merge_left comps rows NA) ->
  merge_on_hand comps
    (edited_stock ((fun j => (j.1, coerced j.2))
                     <$> merge_left comps rows NA) edited_On_Hand)
  = zip (fst <$> merge_left comps rows NA) edited_On_Hand.
Proof.
  intros Hnd Hlen. unfold edited_stock, merge_on_hand.
  rewrite <- list_fmap_compose.
  change ((fun b : usage_row * Q => usage_Component b.1) ∘ _)
    with (usage_Component ∘ @fst usage_row cell).
  rewrite list_fmap_compose, !(merge_left_fst comps rows NA).
  apply merge_left_replicated; [exact Hnd|intros; lia|].
  by rewrite <- (merge_left_fst comps rows NA), length_fmap.
Qed.


(** X8: on the page, when the usage table lists every component once
    and the user edits nothing, the call of [compute] gives what
    [compute] gives on the loaded stock table itself. *)
Theorem page_compute_unedited comps rows cases :
  NoDup (usage_Component <$> comps) ->
  exists base,
    base_frame comps (StockOnHand rows) = Ok base /\
    page_compute comps (StockOnHand rows) ((fun b => Num b.2) <$> base) cases
    = compute comps (StockOnHand rows) cases.
Proof.
  intros Hnd. eexists. split; [apply base_frame_Ok|].
  unfold page_compute. rewrite base_frame_Ok. cbn [mbind result_bind].
  rewrite !compute_Ok.
  assert (Hdf :
    derived_frame comps
      (edited_stock ((fun j => (j.1, coerced j.2))
                       <$> merge_left comps rows NA)
         ((fun b : usage_row * Q => Num b.2)
            <$> ((fun j => (j.1, coerced j.2))
                   <$> merge_left comps rows NA))) cases
    = derived_frame comps (StockOnHand rows) cases).
  { unfold derived_frame. rewrite page_merge; [|exact Hnd|].
    2:{ by rewrite !length_fmap. }
    rewrite <- list_fmap_compose.
    change ((fun b : usage_row * Q => Num b.2) ∘ _)
      with ((fun c => Num (coerced c)) ∘ @snd usage_row cell).
    rewrite zip_fmap_fst_snd, <- list_fmap_compose. simpl.
    apply list_fmap_ext. intros _ [u c] _. reflexivity. }
  by rewrite Hdf.
Qed.

(** ** More about [write_onhand] *)

Lemma write_onhand_block INVENTORY_WS sh ws edited_df i j :
  sh !! INVENTORY_WS = Some ws ->
  positions "Component" (columns edited_df) = [i] ->
  positions "On_Hand" (columns edited_df) = [j] ->
  write_onhand INVENTORY_WS sh edited_df
  = (Ok (), <[INVENTORY_WS := onhand_block edited_df i j]> sh).
Proof.
  intros Hws Hi Hj. unfold write_onhand. rewrite Hws.
  rewrite (getitem_list_pair _ _ _ _ _ Hi Hj).
  cbn [mbind result_bind].
  change (getitem _ "On_Hand")
    with (Ok (Series ((fun row => row_at row 1)
                        <$> ((fun row => [row_at row i; row_at row j])
                               <$> values edited_df)))).
  cbn [mbind result_bind]. rewrite to_numeric_series_Ok.
  cbn [mbind result_bind mret result_ret].
  unfold ws_clear. rewrite ws_update_nil. do 2 f_equal.
  unfold onhand_block. f_equal. unfold setitem.
  change (positions "On_Hand" _) with [1%nat].
  cbn [columns values].
  rewrite <- !list_fmap_compose.
  rewrite zip_with_fmap_l, zip_with_fmap_r, zip_with_diag.
  rewrite <- list_fmap_compose.
  apply list_fmap_ext. intros _ row _. simpl.
  unfold row_at at 2. simpl. by rewrite coerced_parsed.
Qed.

Lemma getitem_list_missing df labels l :
  l ∈ labels -> l ∉ columns df ->
  exists l', l' ∈ labels /\ getitem_list df labels = Raise (KeyError l').
Proof.
  intros Hl Hmiss. unfold getitem_list.
  induction labels as [|a labels IH]; [by apply elem_of_nil in Hl|].
  cbn [mapM]. destruct (positions a (columns df)) as [|p ps] eqn:Hp.
  - exists a. split; [apply list_elem_of_here|reflexivity].
  - apply elem_of_cons in Hl as [->|Hl].
    + apply positions_nil in Hmiss. congruence.
    + destruct (IH Hl) as (l' & Hl' & Hraise).
      exists l'. split; [by apply list_elem_of_further|].
      cbn [mbind result_bind mret result_ret] in *.
      destruct (mapM _ labels); [discriminate|]. simpl in *. congruence.
Qed.

Lemma coerced_cases c :
  (forall q, c = Num q -> coerced c = q) /\
  (forall s q, c = Str s -> s <> EmptyString -> str_to_float s = Some q ->
     coerced c = q) /\
  (forall s, c = Str s -> str_to_float s = None -> coerced c = 0%Q) /\
  (c = Str EmptyString -> coerced c = 0%Q) /\
  (c = NA -> coerced c = 0%Q).
Proof.
  unfold coerced, coerce, to_numeric.
  repeat split.
  - by intros q ->.
  - intros s q -> Hs Hq. apply String.eqb_neq in Hs. by rewrite Hs, Hq.
  - intros s -> Hq. rewrite Hq. by destruct (String.eqb s EmptyString).
  - by intros ->.
  - by intros ->.
Qed.

(** C9: for an edited table with one [Component] and one [On_Hand]
    column, [write_onhand] succeeds and leaves in the inventory
    worksheet a block that starts with the row of the two labels
    [Component] and [On_Hand] and has one row of two cells per edited
    row, in order: the component (a null as the empty text), and the
    stock as a number.  That number is the edited value itself when it
    is a number, the parsed value when it is a text that parses, and
    [0.0] for a text that does not parse, an empty text or a null.
    Nothing of the worksheet's earlier content [ws] remains (the sheet
    is cleared, then written), and the other worksheets are as they
    were. *)
Theorem write_onhand_replaces_worksheet INVENTORY_WS sh ws edited_df :
  sh !! INVENTORY_WS = Some ws ->
  occurrences "Component" (columns edited_df) = 1%nat ->
  occurrences "On_Hand" (columns edited_df) = 1%nat ->
  exists i j block,
    columns edited_df !! i = Some "Component" /\
    columns edited_df !! j = Some "On_Hand" /\
    write_onhand INVENTORY_WS sh edited_df
    = (Ok (), <[INVENTORY_WS := block]> sh) /\
    ws_update block (ws_clear ws) = block /\
    head block = Some [Str "Component"; Str "On_Hand"] /\
    length (tail block) = length (values edited_df) /\
    forall k row, values edited_df !! k = Some row ->
      exists name v,
        tail block !! k = Some [name; Num v] /\
        (row_at row i = NA -> name = Str EmptyString) /\
        (row_at row i <> NA -> name = row_at row i) /\
        (forall q, row_at row j = Num q -> v = q) /\
        (forall s q, row_at row j = Str s -> s <> EmptyString ->
           str_to_float s = Some q -> v = q) /\
        (forall s, row_at row j = Str s -> str_to_float s = None ->
           v = 0%Q) /\
        (row_at row j = Str EmptyString -> v = 0%Q) /\
        (row_at row j = NA -> v = 0%Q).
Proof.
  intros Hws Hc Ho.
  destruct (positions_unique _ _ Hc) as [i Hi].
  destruct (positions_unique _ _ Ho) as [j Hj].
  exists i, j, (onhand_block edited_df i j).
  split; [by apply positions_singleton|].
  split; [by apply positions_singleton|].
  split; [by apply write_onhand_block with ws|].
  split; [apply ws_update_nil|].
  split; [reflexivity|].
  unfold onhand_block. cbn [tail]. split; [by rewrite length_fmap|].
  intros k row Hrow.
  exists (blank_null (row_at row i)), (coerced (row_at row j)).
  split; [by rewrite list_lookup_fmap, Hrow|].
  split; [by intros ->|].
  split; [by destruct (row_at row i)|].
  apply coerced_cases.
Qed.

(** X9: when the edited table lacks the [Component] or the [On_Hand]
    column (or the spreadsheet has no inventory worksheet),
    [write_onhand] raises before it touches the worksheet: the
    spreadsheet is left exactly as it was, not cleared. *)
Theorem write_onhand_missing_column INVENTORY_WS sh edited_df :
  "Component" ∉ columns edited_df \/ "On_Hand" ∉ columns edited_df ->
  exists e,
    write_onhand INVENTORY_WS sh edited_df = (Raise e, sh) /\
    (e = WorksheetNotFound INVENTORY_WS \/ e = KeyError "Component" \/
     e = KeyError "On_Hand").
Proof.
  intros Hmiss. unfold write_onhand.
  destruct (sh !! INVENTORY_WS) as [ws|]; [|eexists; split; eauto].
  assert (Hraise : exists l', l' ∈ ["Component"; "On_Hand"] /\
            getitem_list edited_df ["Component"; "On_Hand"]
            = Raise (KeyError l')).
  { destruct Hmiss as [H|H];
      eapply getitem_list_missing; try exact H;
      repeat first [apply list_elem_of_here | apply list_elem_of_further]. }
  destruct Hraise as (l' & Hl' & ->). cbn [mbind result_bind].
  eexists. split; [reflexivity|].
  repeat (apply elem_of_cons in Hl' as [->|Hl']); auto.
  by apply elem_of_nil in Hl'.
Qed.

(** X10: syncing the same edited table a second time changes nothing:
    the second [write_onhand] succeeds and leaves the spreadsheet as the
    first one left it. *)
Theorem write_onhand_twice INVENTORY_WS sh ws edited_df :
  sh !! INVENTORY_WS = Some ws ->
  occurrences "Component" (columns edited_df) = 1%nat ->
  occurrences "On_Hand" (columns edited_df) = 1%nat ->
  exists sh1,
    write_onhand INVENTORY_WS sh edited_df = (Ok (), sh1) /\
    write_onhand INVENTORY_WS sh1 edited_df = (Ok (), sh1).
Proof.
  intros Hws Hc Ho.
  destruct (positions_unique _ _ Hc) as [i Hi].
  destruct (positions_unique _ _ Ho) as [j Hj].
  eexists. split; [by eapply write_onhand_block|].
  erewrite write_onhand_block; [|apply lookup_insert_eq|exact Hi|exact Hj].
  by rewrite insert_insert_eq.
Qed.

(** ** [read_ws_df] and the tables of [load_data] *)

Lemma length_pad_row w row : length row <= w -> length (pad_row w row) = w.
Proof. intros H. unfold pad_row. rewrite length_app, length_replicate. lia. Qed.

Lemma DataFrame_of_rows_Ok rows hs :
  rows = [] \/ max_list (length <$> rows) = length hs ->
  DataFrame_of_rows rows hs
  = Ok {| columns := hs; values := pad_row (length hs) <$> rows |}.
Proof.
  intros H. unfold DataFrame_of_rows. destruct rows as [|r rows]; [done|].
  destruct H as [|H]; [done|]. rewrite decide_True by exact H.
  by rewrite H.
Qed.

Lemma DataFrame_of_rows_Raise rows hs :
  rows <> [] -> max_list (length <$> rows) <> length hs ->
  DataFrame_of_rows rows hs
  = Raise (ValueError_shape (length hs) (max_list (length <$> rows))).
Proof.
  intros Hne H. unfold DataFrame_of_rows. destruct rows as [|r rows]; [done|].
  by rewrite decide_False by exact H.
Qed.

Lemma length_text_rows (rows : list (list string)) :
  length <$> ((fun row : list string => Str <$> row) <$> rows)
  = length <$> rows.
Proof.
  rewrite <- list_fmap_compose. apply list_fmap_ext.
  intros _ row _. simpl. apply length_fmap.
Qed.

(** The frame [read_ws_df] returns, and when it raises. *)
Lemma read_ws_df_frame grid :
  (forall df, read_ws_df grid = Ok df ->
     columns df = headers grid /\
     values df = (fun row : list string =>
                    pad_row (length (headers grid)) (Str <$> row))
                   <$> tail grid /\
     rectangular df) /\
  (raises (read_ws_df grid) <->
   tail grid <> [] /\
   max_list (length <$> tail grid) <> length (headers grid)).
Proof.
  destruct grid as [|h rows]; cbn [read_ws_df headers tail].
  { split.
    - intros df [= <-]. by repeat split; try constructor.
    - split; [by intros [e He]|by intros [? _]]. }
  destruct (decide (rows = [] \/ max_list (length <$> rows) = length h))
    as [Hok|Hbad].
  - rewrite DataFrame_of_rows_Ok.
    2:{ destruct Hok as [->|Hok]; [by left|right].
        by rewrite length_text_rows. }
    split.
    + intros df [= <-]. cbn [columns values].
      split; [reflexivity|]. split; [by rewrite <- list_fmap_compose|].
      unfold rectangular. cbn [columns values].
      apply Forall_fmap, Forall_fmap, Forall_forall.
      intros row Hrow. simpl. apply length_pad_row.
      destruct Hok as [->|Hok]; [by apply elem_of_nil in Hrow|].
      rewrite <- Hok, length_fmap. apply max_list_elem_of_le.
      by apply list_elem_of_fmap_2.
    + split; [by intros [e He]|]. intros [Hne Hw].
      destruct Hok; done.
  - assert (Hne : rows <> []) by (intros ->; apply Hbad; by left).
    assert (Hw : max_list (length <$> rows) <> length h)
      by (intros Hw; apply Hbad; by right).
    rewrite DataFrame_of_rows_Raise.
    2:{ by destruct rows. }
    2:{ by rewrite length_text_rows. }
    split; [discriminate|]. split; [done|]. intros _. by eexists.
Qed.

Lemma read_ws_df_rect grid df : read_ws_df grid = Ok df -> rectangular df.
Proof.
  intros H. by apply (proj1 (read_ws_df_frame grid)) in H as (_ & _ & ?).
Qed.

Lemma row_at_insert_eq row j c :
  j < length row -> row_at (<[j := c]> row) j = c.
Proof. intros H. unfold row_at. by rewrite list_lookup_insert_eq. Qed.

Lemma row_at_insert_ne row i j c :
  i <> j -> row_at (<[j := c]> row) i = row_at row i.
Proof. intros H. unfold row_at. by rewrite list_lookup_insert_ne. Qed.

Lemma positions_elem label cols p ps :
  positions label cols = p :: ps -> label ∈ cols.
Proof.
  intros Hp. destruct (decide (label ∈ cols)) as [|Hn]; [done|].
  apply positions_nil in Hn. congruence.
Qed.

Lemma fmap_ext_Forall {A B : Type} (P : A -> Prop) (f g : A -> B) l :
  Forall P l -> (forall x, P x -> f x = g x) -> f <$> l = g <$> l.
Proof.
  intros HP Hfg. apply list_fmap_ext. intros i x Hx.
  apply Hfg. by eapply Forall_lookup_1.
Qed.

(** Lines 135-139 on a column that is there once. *)
Lemma coerce_column_unique df label j :
  positions label (columns df) = [j] ->
  coerce_column df label
  = Ok {| columns := columns df;
          values := (fun row => <[j := cell_of_float (parsed (row_at row j))]>
                                  row) <$> values df |}.
Proof.
  intros Hj. unfold coerce_column.
  rewrite bool_decide_eq_true_2 by by eapply positions_elem.
  unfold getitem. rewrite Hj. cbn [mbind result_bind].
  rewrite to_numeric_series_Ok. cbn [mbind result_bind mret result_ret].
  unfold setitem. rewrite Hj. do 2 f_equal.
  unfold column_at. rewrite <- !list_fmap_compose.
  by rewrite zip_with_fmap_r, zip_with_diag.
Qed.

Lemma coerce_column_absent df label :
  label ∉ columns df -> coerce_column df label = Ok df.
Proof.
  intros H. unfold coerce_column. by rewrite bool_decide_eq_false_2.
Qed.

(** Selecting two columns of a frame in which column [j] was coerced. *)
Lemma select_coerced df l1 l2 i j :
  rectangular df ->
  positions l1 (columns df) = [i] ->
  positions l2 (columns df) = [j] ->
  l1 <> l2 ->
  getitem_list
    {| columns := columns df;
       values := (fun row => <[j := cell_of_float (parsed (row_at row j))]>
                               row) <$> values df |} [l1; l2]
  = Ok {| columns := [l1; l2];
          values := (fun row => [row_at row i;
                                 cell_of_float (parsed (row_at row j))])
                      <$> values df |}.
Proof.
  intros Hrect Hi Hj Hne.
  rewrite (getitem_list_pair _ l1 l2 i j) by exact Hi || exact Hj.
  do 2 f_equal. cbn [values]. rewrite <- list_fmap_compose.
  apply (fmap_ext_Forall _ _ _ _ Hrect). intros row Hrow. simpl.
  apply positions_singleton in Hi, Hj.
  rewrite row_at_insert_ne, row_at_insert_eq; [reflexivity| |].
  - rewrite Hrow. by eapply lookup_lt_Some.
  - intros ->. congruence.
Qed.

(** The [UOM] column of [comps]: that of the FORMULA frame, or empty
    texts. *)
Lemma load_data_uom formula i j :
  rectangular formula ->
  positions "Per_Case" (columns formula) = [j] ->
  (occurrences "UOM" (columns formula) <= 1)%nat ->
  let formula' :=
    {| columns := columns formula;
       values := (fun row => <[j := cell_of_float (parsed (row_at row j))]>
                               row) <$> values formula |} in
  let comps :=
    {| columns := ["Component"; "Per_Case"];
       values := (fun row => [row_at row i;
                              cell_of_float (parsed (row_at row j))])
                   <$> values formula |} in
  (if bool_decide ("UOM" ∈ columns formula') then
     sel ← getitem formula' "UOM";
     match sel with
     | Series s => mret (setitem comps "UOM" s)
     | Frame _ => Raise (ValueError_setitem "UOM")
     end
   else mret (setitem_scalar comps "UOM" (Str EmptyString)))
  = Ok (comps_frame formula i j).
Proof.
  intros Hrect Hj Huom. cbv zeta. cbn [columns].
  set (comps := {| columns := ["Component"; "Per_Case"];
                   values := (fun row => [row_at row i;
                                          cell_of_float (parsed (row_at row j))])
                               <$> values formula |}).
  assert (Happend : forall f : list cell -> cell,
    setitem comps "UOM" (f <$> values formula)
    = {| columns := ["Component"; "Per_Case"; "UOM"];
         values := (fun row => [row_at row i;
                                cell_of_float (parsed (row_at row j));
                                f row]) <$> values formula |}).
  { intros f. unfold setitem, comps. cbn [columns values].
    change (positions "UOM" ["Component"; "Per_Case"]) with (@nil nat).
    f_equal. by rewrite zip_with_fmap_l, zip_with_fmap_r, zip_with_diag. }
  rewrite <- (length_positions_from 0) in Huom.
  fold (positions "UOM" (columns formula)) in Huom.
  unfold comps_frame, uom_cell.
  destruct (positions "UOM" (columns formula)) as [|k [|k' ks]] eqn:Hk.
  - apply positions_nil in Hk.
    rewrite bool_decide_eq_false_2 by exact Hk.
    unfold setitem_scalar. cbn [mret result_ret]. f_equal.
    replace ((fun _ : list cell => Str EmptyString) <$> values comps)
      with ((fun _ : list cell => Str EmptyString) <$> values formula).
    + apply Happend.
    + unfold comps. cbn [values]. by rewrite <- list_fmap_compose.
  - rewrite bool_decide_eq_true_2 by by eapply positions_elem.
    unfold getitem. cbn [columns]. rewrite Hk. cbn [mbind result_bind].
    cbn [mret result_ret]. f_equal.
    unfold column_at. cbn [values].
    rewrite <- list_fmap_compose, Happend. f_equal.
    apply (fmap_ext_Forall _ _ _ _ Hrect). intros row Hrow. simpl.
    rewrite row_at_insert_ne; [reflexivity|].
    apply positions_singleton in Hk, Hj. intros ->. congruence.
  - simpl in Huom. lia.
Qed.

(** [load_data] up to the inventory: the FORMULA frame gives [comps]. *)
Lemma load_data_comps formula_grid inventory_grid formula inv inv' i j :
  read_ws_df formula_grid = Ok formula ->
  read_ws_df inventory_grid = Ok inv ->
  positions "Component" (columns formula) = [i] ->
  positions "Per_Case" (columns formula) = [j] ->
  (occurrences "UOM" (columns formula) <= 1)%nat ->
  coerce_column inv "On_Hand" = Ok inv' ->
  load_data formula_grid inventory_grid
  = onhand ←
      (if issubset ["Component"; "On_Hand"] (columns inv') then
         getitem_list inv' ["Component"; "On_Hand"]
       else
         sel ← getitem (comps_frame formula i j) "Component";
         match sel with
         | Series s =>
             mret {| columns := ["Component"; "On_Hand"];
                     values := (fun c => [c; Num 0]) <$> s |}
         | Frame _ => Raise ValueError_scalars
         end);
    mret (comps_frame formula i j, onhand).
Proof.
  intros Hf Hi Hci Hcj Huom Hinv.
  pose proof (read_ws_df_rect _ _ Hf) as Hrect.
  unfold load_data. rewrite Hf. cbn [mbind result_bind].
  rewrite Hi. cbn [mbind result_bind].
  rewrite (coerce_column_unique _ _ _ Hcj). cbn [mbind result_bind].
  rewrite Hinv. cbn [mbind result_bind]. cbn [columns].
  assert (Hsub : issubset ["Component"; "Per_Case"] (columns formula) = true).
  { apply issubset_true. intros l Hl.
    repeat (apply elem_of_cons in Hl as [->|Hl]);
      [by eapply positions_elem..|by apply elem_of_nil in Hl]. }
  rewrite Hsub. cbn [negb].
  rewrite (select_coerced formula "Component" "Per_Case" i j)
    by (assumption || discriminate).
  cbn [mbind result_bind].
  pose proof (load_data_uom formula i j Hrect Hcj Huom) as Hu.
  cbv zeta in Hu. cbn [columns] in Hu. rewrite Hu.
  reflexivity.
Qed.

(** X20: for a FORMULA worksheet with the labels [Component] and
    [Per_Case] once each (and [UOM] at most once) and an inventory
    worksheet with [Component] and [On_Hand] once each, [load_data]
    returns [comps] with the columns [Component], [Per_Case], [UOM],
    one row per FORMULA row, [Per_Case] a number or null (never a
    text) and [UOM] the text of the sheet or empty when the sheet has
    no such column; and [onhand] with the inventory's components and
    its [On_Hand] as numbers or nulls. *)
Theorem load_data_tables formula_grid inventory_grid formula inv :
  read_ws_df formula_grid = Ok formula ->
  read_ws_df inventory_grid = Ok inv ->
  occurrences "Component" (headers formula_grid) = 1%nat ->
  occurrences "Per_Case" (headers formula_grid) = 1%nat ->
  (occurrences "UOM" (headers formula_grid) <= 1)%nat ->
  occurrences "Component" (headers inventory_grid) = 1%nat ->
  occurrences "On_Hand" (headers inventory_grid) = 1%nat ->
  exists i j i' j',
    headers formula_grid !! i = Some "Component" /\
    headers formula_grid !! j = Some "Per_Case" /\
    headers inventory_grid !! i' = Some "Component" /\
    headers inventory_grid !! j' = Some "On_Hand" /\
    load_data formula_grid inventory_grid
    = Ok (comps_frame formula i j, onhand_frame inv i' j').
Proof.
  intros Hf Hi Hc Hp Hu Hc' Ho'.
  rewrite <- (read_ws_df_columns _ _ Hf) in *.
  rewrite <- (read_ws_df_columns _ _ Hi) in *.
  destruct (positions_unique _ _ Hc) as [i Hpi].
  destruct (positions_unique _ _ Hp) as [j Hpj].
  destruct (positions_unique _ _ Hc') as [i' Hpi'].
  destruct (positions_unique _ _ Ho') as [j' Hpj'].
  exists i, j, i', j'.
  repeat (split; [by apply positions_singleton|]).
  rewrite (load_data_comps _ _ formula inv _ i j Hf Hi Hpi Hpj Hu
             (coerce_column_unique _ _ _ Hpj')).
  cbn [columns].
  assert (Hsub : issubset ["Component"; "On_Hand"] (columns inv) = true).
  { apply issubset_true. intros l Hl.
    repeat (apply elem_of_cons in Hl as [->|Hl]);
      [by eapply positions_elem..|by apply elem_of_nil in Hl]. }
  rewrite Hsub.
  rewrite (select_coerced inv "Component" "On_Hand" i' j');
    [reflexivity|by eapply read_ws_df_rect|assumption..|discriminate].
Qed.


(** ** Row counts, in general *)











End Engine.

(** ** The private key *)

Lemma backslash_not_n : backslash <> "n"%char.
Proof. by compute. Qed.

Lemma newline_not_n : newline <> "n"%char.
Proof. by compute. Qed.

Lemma replace_backslash_n_head s c t :
  replace_backslash_n s = String c t -> c = "n"%char ->
  exists s', s = String "n" s'.
Proof.
  destruct s as [|a s']; simpl; [discriminate|].
  destruct (Ascii.eqb_spec a backslash) as [->|Hne].
  - destruct s' as [|b s''].
    + intros [= <- _] Hc. by destruct backslash_not_n.
    + destruct (Ascii.eqb b "n"); intros [= <- _] Hc.
      * by destruct newline_not_n.
      * by destruct backslash_not_n.
  - intros [= -> _] ->. by eexists.
Qed.

Lemma contains_cons pat c s :
  contains pat (String c s) = String.prefix pat (String c s) || contains pat s.
Proof. reflexivity. Qed.

Lemma prefix_backslash_n c s :
  String.prefix backslash_n (String c s) = true ->
  c = backslash /\ exists s', s = String "n" s'.
Proof.
  unfold backslash_n. cbn [String.prefix].
  destruct (ascii_dec backslash c) as [Hc|]; [|intros; discriminate].
  destruct s as [|b s']; cbn [String.prefix]; [intros; discriminate|].
  destruct (ascii_dec "n" b) as [Hb|]; [|intros; discriminate].
  intros _. subst. split; [reflexivity|by eexists].
Qed.

Lemma prefix_backslash_n_here s :
  String.prefix backslash_n (String backslash (String "n" s)) = true.
Proof. by destruct s. Qed.

Lemma replace_backslash_n_clean_aux n s :
  String.length s <= n ->
  contains backslash_n (replace_backslash_n s) = false.
Proof.
  revert s. induction n as [|n IH]; intros s Hlen.
  - destruct s; [reflexivity|simpl in Hlen; lia].
  - destruct s as [|a s']; [reflexivity|]. simpl in Hlen.
    assert (Hkeep : contains backslash_n
                      (String a (replace_backslash_n s')) = false
                    \/ (a = backslash /\ exists s'', s' = String "n" s'')).
    { rewrite contains_cons, (IH s') by lia. rewrite orb_false_r.
      destruct (String.prefix backslash_n
                  (String a (replace_backslash_n s'))) eqn:Hp; [|by left].
      right. apply prefix_backslash_n in Hp as [-> [t Ht]].
      split; [reflexivity|]. by eapply replace_backslash_n_head. }
    simpl. destruct (Ascii.eqb_spec a backslash) as [->|Hne].
    + destruct s' as [|b s'']; [reflexivity|].
      destruct (Ascii.eqb_spec b "n") as [->|Hb].
      * rewrite contains_cons, (IH s'') by (simpl in Hlen; lia).
        reflexivity.
      * destruct Hkeep as [Hk|[_ [t Ht]]]; [exact Hk|].
        injection Ht as -> _. done.
    + destruct Hkeep as [Hk|[-> _]]; [exact Hk|done].
Qed.

Lemma replace_backslash_n_clean s :
  contains backslash_n (replace_backslash_n s) = false.
Proof. by apply (replace_backslash_n_clean_aux (String.length s)). Qed.

Lemma replace_backslash_n_id_aux n s :
  String.length s <= n ->
  contains backslash_n s = false -> replace_backslash_n s = s.
Proof.
  revert s. induction n as [|n IH]; intros s Hlen Hc.
  - destruct s; [reflexivity|simpl in Hlen; lia].
  - destruct s as [|a s']; [reflexivity|]. simpl in Hlen.
    rewrite contains_cons in Hc. apply orb_false_elim in Hc as [Hp Hc].
    simpl. rewrite (IH s') by (lia || exact Hc).
    destruct (Ascii.eqb_spec a backslash) as [->|Hne]; [|reflexivity].
    destruct s' as [|b s'']; [reflexivity|].
    destruct (Ascii.eqb_spec b "n") as [->|Hb]; [|reflexivity].
    by rewrite prefix_backslash_n_here in Hp.
Qed.

Lemma replace_backslash_n_id s :
  contains backslash_n s = false -> replace_backslash_n s = s.
Proof. by apply (replace_backslash_n_id_aux (String.length s)). Qed.

Lemma replace_backslash_n_cons a s :
  replace_backslash_n (String a s)
  = if Ascii.eqb a backslash then
      match s with
      | String c' s'' =>
          if Ascii.eqb c' "n"
          then String newline (replace_backslash_n s'')
          else String a (replace_backslash_n s)
      | EmptyString => String a EmptyString
      end
    else String a (replace_backslash_n s).
Proof. reflexivity. Qed.

Lemma append_cons a s t : String a s +:+ t = String a (s +:+ t).
Proof. reflexivity. Qed.

Lemma replace_backslash_n_app_aux n s1 s2 :
  String.length s1 <= n ->
  replace_backslash_n (s1 +:+ backslash_n +:+ s2)
  = replace_backslash_n s1 +:+ String newline (replace_backslash_n s2).
Proof.
  revert s1. induction n as [|n IH]; intros s1 Hlen.
  - destruct s1; [reflexivity|simpl in Hlen; lia].
  - destruct s1 as [|a s1']; [reflexivity|].
    simpl in Hlen.
    rewrite append_cons, !replace_backslash_n_cons.
    destruct (Ascii.eqb a backslash) eqn:Ha.
    + destruct s1' as [|b s1''].
      * apply Ascii.eqb_eq in Ha. subst a. reflexivity.
      * rewrite append_cons.
        destruct (Ascii.eqb b "n") eqn:Hb.
        -- rewrite append_cons. f_equal. apply IH. simpl in Hlen. lia.
        -- rewrite (append_cons a). f_equal.
           rewrite <- append_cons.
           apply (IH (String b s1'')). simpl in *. lia.
    + rewrite append_cons. f_equal. apply IH. lia.
Qed.

(** X13: a backslash followed by n becomes a line break wherever it
    stands: the replacement of a text cut at such a pair is the
    replacement of what precedes it, a line break, and the replacement
    of what follows. *)
Theorem replace_backslash_n_app s1 s2 :
  replace_backslash_n (s1 +:+ backslash_n +:+ s2)
  = replace_backslash_n s1 +:+ String newline (replace_backslash_n s2).
Proof. by apply (replace_backslash_n_app_aux (String.length s1)). Qed.

(** X11: [normalize_private_key] does to the table exactly what an
    unconditional replacement in the text under [private_key] does: it
    adds no key (not even [private_key] when it is absent), removes
    none, and leaves every other entry as it is. *)
Theorem normalize_private_key_alter sa :
  normalize_private_key sa = alter replace_backslash_n "private_key" sa /\
  dom (normalize_private_key sa) = dom sa /\
  (forall k, k <> "private_key" -> normalize_private_key sa !! k = sa !! k).
Proof.
  assert (H : normalize_private_key sa
              = alter replace_backslash_n "private_key" sa).
  { unfold normalize_private_key. apply map_eq. intros k.
    destruct (sa !! "private_key") as [pk|] eqn:Hpk; simpl.
    - destruct (contains backslash_n pk) eqn:Hc.
      + destruct (decide (k = "private_key")) as [->|Hk].
        * by rewrite lookup_insert_eq, lookup_alter_eq, Hpk.
        * by rewrite lookup_insert_ne, lookup_alter_ne.
      + destruct (decide (k = "private_key")) as [->|Hk].
        * rewrite lookup_alter_eq, Hpk. simpl.
          by rewrite replace_backslash_n_id.
        * by rewrite lookup_alter_ne.
    - destruct (decide (k = "private_key")) as [->|Hk].
      + by rewrite lookup_alter_eq, Hpk.
      + by rewrite lookup_alter_ne. }
  split; [exact H|]. split.
  - rewrite H. apply dom_alter_L.
  - intros k Hk. rewrite H. by apply lookup_alter_ne.
Qed.

(** X12: after [normalize_private_key] the private key holds no
    backslash followed by n any more, and normalising again changes
    nothing. *)
Theorem normalize_private_key_idempotent sa :
  (forall pk, normalize_private_key sa !! "private_key" = Some pk ->
     contains backslash_n pk = false) /\
  normalize_private_key (normalize_private_key sa) = normalize_private_key sa.
Proof.
  assert (Hclean : forall pk,
            normalize_private_key sa !! "private_key" = Some pk ->
            contains backslash_n pk = false).
  { intros pk. unfold normalize_private_key.
    destruct (sa !! "private_key") as [pk0|] eqn:Hpk; simpl.
    - destruct (contains backslash_n pk0) eqn:Hc.
      + rewrite lookup_insert_eq. intros [= <-].
        apply replace_backslash_n_clean.
      + rewrite Hpk. by intros [= <-].
    - rewrite Hpk. discriminate. }
  split; [exact Hclean|].
  unfold normalize_private_key at 1.
  destruct (normalize_private_key sa !! "private_key") as [pk|] eqn:Hpk;
    simpl; [|reflexivity].
  by rewrite (Hclean pk).
Qed.


(** ** Splitting a link *)

Lemma prefix_nil s : String.prefix EmptyString s = true.
Proof. by destruct s. Qed.

Lemma prefix_cons a s b t :
  String.prefix (String a s) (String b t)
  = if ascii_dec a b then String.prefix s t else false.
Proof. reflexivity. Qed.

Lemma append_nil_l s : EmptyString +:+ s = s.
Proof. reflexivity. Qed.

Lemma append_assoc s t u : (s +:+ t) +:+ u = s +:+ (t +:+ u).
Proof.
  induction s as [|a s IH]; [reflexivity|].
  by rewrite !append_cons, IH.
Qed.

(** Whether [sep] starts a text depends on as many characters as [sep]
    has. *)
Lemma prefix_app sep a b :
  String.length sep <= String.length a ->
  String.prefix sep (a +:+ b) = String.prefix sep a.
Proof.
  revert a. induction sep as [|c sep IH]; intros a Hlen.
  - by rewrite !prefix_nil.
  - destruct a as [|d a]; [simpl in Hlen; lia|].
    rewrite append_cons, !prefix_cons.
    destruct (ascii_dec c d); [|reflexivity].
    apply IH. simpl in Hlen. lia.
Qed.

Lemma split_go_cons sep c s :
  split_go sep 0 (String c s)
  = if String.prefix sep (String c s)
    then EmptyString :: split_go sep (String.length sep - 1) s
    else match split_go sep 0 s with
         | part :: parts => String c part :: parts
         | [] => [String c EmptyString]
         end.
Proof. reflexivity. Qed.

Lemma split_go_skip sep a q :
  split_go sep (String.length a) (a +:+ q) = split_go sep 0 q.
Proof.
  induction a as [|c a IH]; [by destruct q|].
  rewrite append_cons. exact IH.
Qed.

Lemma length_append s t :
  String.length (s +:+ t) = (String.length s + String.length t)%nat.
Proof.
  induction s as [|a s IH]; [reflexivity|].
  rewrite append_cons. simpl. by rewrite IH.
Qed.

(** The first occurrence of ["/d/"]: when it is the one that ends
    [p +:+ "/d/"], the split cuts there. *)
Lemma split_slash_d p q :
  contains "/d/" (p +:+ "/d") = false ->
  split "/d/" (p +:+ "/d/" +:+ q) = p :: split "/d/" q.
Proof.
  unfold split. induction p as [|a p IH]; intros Hc.
  - by destruct q.
  - rewrite append_cons in Hc. rewrite contains_cons in Hc.
    apply orb_false_elim in Hc as [Hp Hc].
    rewrite append_cons, split_go_cons.
    assert (Hq : String.prefix "/d/" (String a (p +:+ "/d/" +:+ q))
                 = String.prefix "/d/" (String a (p +:+ "/d"))).
    { rewrite <- !append_cons.
      change ("/d/" +:+ q) with ("/d" +:+ ("/" +:+ q)).
      rewrite <- append_assoc. apply prefix_app.
      rewrite length_append. simpl. lia. }
    by rewrite Hq, Hp, (IH Hc).
Qed.

Lemma split_go_nonempty sep skip s : split_go sep skip s <> [].
Proof.
  revert skip. induction s as [|c s IH]; intros skip; [done|].
  destruct skip as [|k]; [|apply IH]. rewrite split_go_cons.
  destruct (String.prefix sep (String c s)); [done|].
  by destruct (split_go sep 0 s).
Qed.

Lemma split_without sep q : contains sep q = false -> split sep q = [q].
Proof.
  unfold split. induction q as [|c q IH]; intros Hc; [reflexivity|].
  rewrite contains_cons in Hc. apply orb_false_elim in Hc as [Hp Hc].
  by rewrite split_go_cons, Hp, (IH Hc).
Qed.

Lemma prefix_self_app sep q : String.prefix sep (sep +:+ q) = true.
Proof.
  induction sep as [|c sep IH]; [apply prefix_nil|].
  rewrite append_cons, prefix_cons.
  by destruct (ascii_dec c c).
Qed.

Lemma contains_app_sep sep p q : contains sep (p +:+ sep +:+ q) = true.
Proof.
  induction p as [|a p IH].
  - rewrite append_nil_l. destruct (sep +:+ q) eqn:E.
    + destruct sep; [reflexivity|discriminate].
    + rewrite contains_cons, <- E, prefix_self_app. reflexivity.
  - by rewrite append_cons, contains_cons, IH, orb_true_r.
Qed.

Lemma no_slash_head a s :
  contains "/" (String a s) = false -> a <> "/"%char /\ contains "/" s = false.
Proof.
  rewrite contains_cons. intros [Hp Hc]%orb_false_elim. split; [|exact Hc].
  rewrite prefix_cons, prefix_nil in Hp.
  destruct (ascii_dec "/" a) as [|Hne]; [discriminate|]. by intros ->.
Qed.

Lemma prefix_slash_other sep a s :
  a <> "/"%char -> String.prefix (String "/" sep) (String a s) = false.
Proof.
  intros Ha. rewrite prefix_cons.
  destruct (ascii_dec "/" a) as [<-|]; done.
Qed.

(** Up to the first slash. *)
Lemma head_split_slash id rest :
  contains "/" id = false ->
  rest = EmptyString \/ (exists r, rest = String "/" r) ->
  head (split "/" (id +:+ rest)) = Some id.
Proof.
  unfold split. intros Hid Hrest. induction id as [|a id IH].
  - rewrite append_nil_l. destruct Hrest as [->|[r ->]]; [reflexivity|].
    by rewrite split_go_cons, prefix_cons, prefix_nil.
  - apply no_slash_head in Hid as [Ha Hid]. specialize (IH Hid).
    rewrite append_cons, split_go_cons, prefix_slash_other by exact Ha.
    destruct (split_go "/" 0 (id +:+ rest)); [discriminate|].
    simpl in *. by injection IH as ->.
Qed.

Lemma head_split_slash_clean t :
  contains "/" (default EmptyString (head (split "/" t))) = false.
Proof.
  unfold split. induction t as [|c t IH]; [reflexivity|].
  rewrite split_go_cons.
  destruct (String.prefix "/" (String c t)) eqn:Hp; [reflexivity|].
  pose proof (split_go_nonempty "/" 0 t) as Hne.
  destruct (split_go "/" 0 t) as [|part parts]; [done|].
  change (contains "/" part = false) in IH.
  change (contains "/" (String c part) = false).
  rewrite contains_cons, IH, orb_false_r.
  rewrite prefix_cons in *. destruct (ascii_dec "/" c); [|reflexivity].
  by rewrite prefix_nil in *.
Qed.

(** The part of [id +:+ rest] before the first ["/d/"] starts with [id]
    and goes on, if at all, with a slash. *)
Lemma head_split_slash_d id rest :
  contains "/" id = false ->
  rest = EmptyString \/ (exists r, rest = String "/" r) ->
  exists rest',
    head (split "/d/" (id +:+ rest)) = Some (id +:+ rest') /\
    (rest' = EmptyString \/ exists r, rest' = String "/" r).
Proof.
  unfold split. intros Hid Hrest. induction id as [|a id IH].
  - rewrite append_nil_l. destruct Hrest as [->|[r ->]].
    + exists EmptyString. by split; [|left].
    + rewrite split_go_cons.
      destruct (String.prefix "/d/" (String "/" r)).
      * exists EmptyString. by split; [|left].
      * pose proof (split_go_nonempty "/d/" 0 r) as Hne.
        destruct (split_go "/d/" 0 r) as [|part parts]; [done|].
        exists (String "/" part). split; [reflexivity|right; by eexists].
  - apply no_slash_head in Hid as [Ha Hid].
    destruct (IH Hid) as (rest' & Hh & Hr').
    exists rest'. split; [|exact Hr'].
    rewrite append_cons, split_go_cons, prefix_slash_other by exact Ha.
    destruct (split_go "/d/" 0 (id +:+ rest)); [discriminate|].
    simpl in *. by injection Hh as ->.
Qed.

Lemma no_slash_no_slash_d id :
  contains "/" id = false -> contains "/d/" (id +:+ "/d") = false.
Proof.
  induction id as [|a id IH]; intros Hid; [reflexivity|].
  apply no_slash_head in Hid as [Ha Hid].
  by rewrite append_cons, contains_cons, prefix_slash_other, IH.
Qed.

Lemma truthy_Some s : s <> EmptyString -> truthy (Some s) = Some s.
Proof. by destruct s. Qed.

Lemma contains_nonempty sep s :
  sep <> EmptyString -> contains sep s = true -> s <> EmptyString.
Proof. intros Hsep Hc ->. by destruct sep. Qed.

(** The id in a link [p/d/id] or [p/d/id/...], read by the expression of
    the query parameter and by that of the text field. *)
Lemma sheet_id_of_query_link strip p id rest :
  strip (p +:+ "/d/" +:+ id +:+ rest) = p +:+ "/d/" +:+ id +:+ rest ->
  contains "/d/" (p +:+ "/d") = false ->
  contains "/" id = false ->
  rest = EmptyString \/ (exists r, rest = String "/" r) ->
  contains "/d/" (id +:+ rest) = false ->
  sheet_id_of_query strip (p +:+ "/d/" +:+ id +:+ rest) = id.
Proof.
  intros Hstrip Hp Hid Hrest Hq. unfold sheet_id_of_query.
  rewrite contains_app_sep, Hstrip, (split_slash_d _ _ Hp).
  rewrite (split_without _ _ Hq). simpl.
  by rewrite head_split_slash.
Qed.

Lemma sheet_id_of_input_link strip user_input p id rest :
  strip user_input = p +:+ "/d/" +:+ id +:+ rest ->
  contains "/d/" (p +:+ "/d") = false ->
  contains "/" id = false ->
  rest = EmptyString \/ (exists r, rest = String "/" r) ->
  sheet_id_of_input strip user_input = id.
Proof.
  intros Hstrip Hp Hid Hrest. unfold sheet_id_of_input.
  rewrite Hstrip, contains_app_sep, (split_slash_d _ _ Hp).
  destruct (head_split_slash_d id rest Hid Hrest) as (rest' & Hh & Hr').
  destruct (split "/d/" (id +:+ rest)) as [|part parts]; [discriminate|].
  simpl in *. injection Hh as ->. by rewrite head_split_slash.
Qed.

Lemma append_nil_r s : s +:+ EmptyString = s.
Proof. induction s as [|a s IH]; [reflexivity|by rewrite append_cons, IH]. Qed.

Lemma no_slash_contains_slash_d s :
  contains "/" s = false -> contains "/d/" s = false.
Proof.
  induction s as [|a s IH]; intros Hs; [reflexivity|].
  apply no_slash_head in Hs as [Ha Hs].
  by rewrite contains_cons, prefix_slash_other, IH.
Qed.

(** X14: a query parameter [sheet_id] that holds a link
    [p/d/id] or [p/d/id/...] (no earlier ["/d/"] in it, none after the
    id, no blanks around it) makes [resolve_sheet_id] return [id],
    whatever the secrets, the session state and the text field hold. *)
Theorem resolve_sheet_id_query_link strip env p id rest :
  first_value (query_value env) = Some (p +:+ "/d/" +:+ id +:+ rest) ->
  strip (p +:+ "/d/" +:+ id +:+ rest) = p +:+ "/d/" +:+ id +:+ rest ->
  contains "/d/" (p +:+ "/d") = false ->
  contains "/" id = false ->
  rest = EmptyString \/ (exists r, rest = String "/" r) ->
  contains "/d/" (id +:+ rest) = false ->
  resolve_sheet_id strip env = Returned (Some id).
Proof.
  intros Hq Hstrip Hp Hid Hrest Hno. unfold resolve_sheet_id.
  rewrite Hq, truthy_Some.
  - by rewrite sheet_id_of_query_link.
  - apply (contains_nonempty "/d/"); [done|apply contains_app_sep].
Qed.

(** X15: when neither the query parameter nor the secrets give a sheet
    id and the user presses the button with a link [p/d/id] or
    [p/d/id/...] in the text field, [resolve_sheet_id] stores [id] and
    reruns the script, and on that next run it returns [id]. *)
Theorem resolve_sheet_id_manual_link strip env p id rest :
  truthy (first_value (query_value env)) = None ->
  truthy (first_value (secrets_SHEET_ID env)) = None ->
  truthy (first_value (app_SHEET_ID env)) = None ->
  button env = true ->
  text_input env <> EmptyString ->
  strip (text_input env) = p +:+ "/d/" +:+ id +:+ rest ->
  contains "/d/" (p +:+ "/d") = false ->
  contains "/" id = false ->
  rest = EmptyString \/ (exists r, rest = String "/" r) ->
  resolve_sheet_id strip env = Rerun id /\
  resolve_sheet_id strip (after_rerun env id) = Returned (Some id).
Proof.
  intros Hq Hs Ha Hb Ht Hstrip Hp Hid Hrest.
  split.
  - unfold resolve_sheet_id. rewrite Hq, Hs, Ha, Hb, (truthy_Some _ Ht).
    by rewrite (sheet_id_of_input_link strip _ p id rest).
  - unfold resolve_sheet_id.
    change (query_value (after_rerun env id)) with (query_value env).
    cbn [after_rerun secrets_SHEET_ID app_SHEET_ID button manual_sheet_input].
    by rewrite Hq, Hs, Ha.
Qed.

(** X16: whenever the query parameter holds ["/d/"], the sheet id that
    [resolve_sheet_id] returns contains no slash. *)
Theorem resolve_sheet_id_no_slash strip env raw :
  truthy (first_value (query_value env)) = Some raw ->
  contains "/d/" raw = true ->
  exists sid,
    resolve_sheet_id strip env = Returned (Some sid) /\
    contains "/" sid = false.
Proof.
  intros Hq Hc. unfold resolve_sheet_id. rewrite Hq.
  eexists. split; [reflexivity|].
  unfold sheet_id_of_query. rewrite Hc. apply head_split_slash_clean.
Qed.

(** X17: the two ways of reading a link differ when it holds ["/d/"]
    twice: from [p/d/id1/d/id2] the expression of the query parameter
    takes [id2], what follows the last ["/d/"], and that of the text
    field takes [id1], what follows the first. *)
Theorem sheet_id_first_or_last strip p id1 id2 :
  strip (p +:+ "/d/" +:+ id1 +:+ "/d/" +:+ id2)
  = p +:+ "/d/" +:+ id1 +:+ "/d/" +:+ id2 ->
  contains "/d/" (p +:+ "/d") = false ->
  contains "/" id1 = false ->
  contains "/" id2 = false ->
  sheet_id_of_query strip (p +:+ "/d/" +:+ id1 +:+ "/d/" +:+ id2) = id2 /\
  sheet_id_of_input strip (p +:+ "/d/" +:+ id1 +:+ "/d/" +:+ id2) = id1.
Proof.
  intros Hstrip Hp H1 H2. split.
  - unfold sheet_id_of_query.
    rewrite contains_app_sep, Hstrip, (split_slash_d _ _ Hp).
    rewrite (split_slash_d id1 id2) by by apply no_slash_no_slash_d.
    rewrite (split_without "/d/" id2)
      by by apply no_slash_contains_slash_d.
    simpl. rewrite <- (append_nil_r id2) at 1.
    rewrite head_split_slash; [reflexivity|exact H2|by left].
  - apply (sheet_id_of_input_link strip _ p id1 ("/d/" +:+ id2));
      [exact Hstrip|exact Hp|exact H1|right; by eexists].
Qed.

(** X18: for the worksheet names the secrets win over the link: a
    [FORMULA_WS] (or [INVENTORY_WS]) under [app] is the name used; if
    there is none, a top-level one is; the query parameter counts only
    when no secret sets the name, and only if it is not empty; otherwise
    the name is "FORMULA" (or "INVENTORY"). *)
Theorem resolve_ws_names_precedence env :
  (forall v, app_FORMULA_WS env = Some v -> (resolve_ws_names env).1 = v) /\
  (forall v, app_FORMULA_WS env = None -> secrets_FORMULA_WS env = Some v ->
     (resolve_ws_names env).1 = v) /\
  (forall v, app_INVENTORY_WS env = Some v -> (resolve_ws_names env).2 = v) /\
  (forall v, app_INVENTORY_WS env = None ->
     secrets_INVENTORY_WS env = Some v -> (resolve_ws_names env).2 = v) /\
  (app_FORMULA_WS env = None -> secrets_FORMULA_WS env = None ->
     (resolve_ws_names env).1
     = match query_ws env with
       | Some (f, _) => default "FORMULA" (truthy (first_value f))
       | None => "FORMULA"
       end) /\
  (app_INVENTORY_WS env = None -> secrets_INVENTORY_WS env = None ->
     (resolve_ws_names env).2
     = match query_ws env with
       | Some (_, i) => default "INVENTORY" (truthy (first_value i))
       | None => "INVENTORY"
       end).
Proof.
  unfold resolve_ws_names.
  destruct (query_ws env) as [[f i]|]; simpl;
    repeat split; intros; repeat match goal with
                                 | H : _ = _ |- _ => rewrite H
                                 end; reflexivity.
Qed.

(** ** The specification's examples *)

Example compute_example_cases_0 :
  exists display, compute parse_decimal ex_usage ex_stock 0
                  = Ok (display, 4%Z, []).
Proof. eexists. vm_compute. reflexivity. Qed.

Example compute_example_cases_5 :
  exists display,
    compute parse_decimal ex_usage ex_stock 5
    = Ok (display, 4%Z,
          [ {| Component := "Cap"; UOM := "ea"; On_Hand := 50;
               Per_Case := 12; Required := 60; Remaining := -10 |} ]).
Proof. eexists. vm_compute. reflexivity. Qed.

Example compute_example_no_stock :
  exists display shortages,
    compute parse_decimal ex_usage (StockOnHand []) 0
    = Ok (display, 0%Z, shortages) /\
    Forall (fun r => On_Hand r = 0%Q) display.
Proof. eexists _, _. split; [vm_compute; reflexivity|]. by repeat constructor. Qed.

Example coerce_example_text : coerce parse_decimal (Str "N/A") = Ok 0%Q.
Proof. reflexivity. Qed.

Example coerce_example_number : coerce parse_decimal (Str "12") = Ok 12%Q.
Proof. reflexivity. Qed.

(** Without [ws.clear()] the update is a patch: cells outside the
    written block survive. *)
Example ws_update_alone_keeps_cells :
  ws_update [[Str "Component"; Str "On_Hand"]; [Str "Bottle"; Num 90]]
    [[Str "Component"; Str "On_Hand"; Str "Note"];
     [Str "Bottle"; Str "100"; Str "recount"];
     [Str "Cap"; Str "50"; Str EmptyString]]
  = [[Str "Component"; Str "On_Hand"; Str "Note"];
     [Str "Bottle"; Num 90; Str "recount"];
     [Str "Cap"; Str "50"; Str EmptyString]].
Proof. reflexivity. Qed.

(** ** Instances and counterexamples *)






(** A FORMULA worksheet without a [Per_Case] header. *)
Lemma load_data_missing_columns_witness :
  ("Component" ∉ headers ex_formula_grid_no_per_case \/
   "Per_Case" ∉ headers ex_formula_grid_no_per_case) /\
  raises (load_data parse_decimal ex_formula_grid_no_per_case
            ex_inventory_grid) /\
  load_data parse_decimal ex_formula_grid_no_per_case ex_inventory_grid
  = Raise (ValueError_headers ["Component"; "Per_Case"]
             ["Component"; "UOM"]).
Proof.
  assert (H : "Component" ∉ headers ex_formula_grid_no_per_case \/
              "Per_Case" ∉ headers ex_formula_grid_no_per_case).
  { right. by apply (bool_decide_unpack _). }
  split; [exact H|].
  destruct (load_data_missing_columns parse_decimal
              ex_formula_grid_no_per_case ex_inventory_grid H) as [Hr He].
  split; [exact Hr|].
  apply He.
  - eexists. reflexivity.
  - eexists. reflexivity.
  - vm_compute. lia.
  - vm_compute. lia.
Defined.

(** Syncing the edited table over a worksheet with a third column and a
    fourth row: neither survives; the stock 90 of "Bottle" is written as
    90, the text of "Cap" as 0. *)
Lemma write_onhand_replaces_worksheet_witness :
  write_onhand parse_decimal "INVENTORY" ex_sheet ex_edited
  = (Ok (), <["INVENTORY" := [[Str "Component"; Str "On_Hand"];
                              [Str "Bottle"; Num 90];
                              [Str "Cap"; Num 0]]]> ex_sheet) /\
  exists i j block,
    columns ex_edited !! i = Some "Component" /\
    columns ex_edited !! j = Some "On_Hand" /\
    write_onhand parse_decimal "INVENTORY" ex_sheet ex_edited
    = (Ok (), <["INVENTORY" := block]> ex_sheet) /\
    ws_update block
      (ws_clear [[Str "Component"; Str "On_Hand"; Str "Note"];
                 [Str "Bottle"; Str "100"; Str "recount"];
                 [Str "Cap"; Str "50"; Str EmptyString];
                 [Str "Label"; Str "7"; Str EmptyString]])
    = block /\
    head block = Some [Str "Component"; Str "On_Hand"] /\
    length (tail block) = length (values ex_edited) /\
    forall k row, values ex_edited !! k = Some row ->
      exists name v,
        tail block !! k = Some [name; Num v] /\
        (row_at row i = NA -> name = Str EmptyString) /\
        (row_at row i <> NA -> name = row_at row i) /\
        (forall q, row_at row j = Num q -> v = q) /\
        (forall s q, row_at row j = Str s -> s <> EmptyString ->
           parse_decimal s = Some q -> v = q) /\
        (forall s, row_at row j = Str s -> parse_decimal s = None ->
           v = 0%Q) /\
        (row_at row j = Str EmptyString -> v = 0%Q) /\
        (row_at row j = NA -> v = 0%Q).
Proof.
  split; [reflexivity|].
  apply (write_onhand_replaces_worksheet parse_decimal "INVENTORY" ex_sheet).
  - reflexivity.
  - reflexivity.
  - reflexivity.
Defined.

(** The link of a sheet as the query parameter. *)
Lemma resolve_sheet_id_query_link_witness :
  resolve_sheet_id strip_spaces ex_env_query = Returned (Some "1ivuxCDfMu").
Proof.
  apply (resolve_sheet_id_query_link strip_spaces ex_env_query
           "https://docs.google.com/spreadsheets" "1ivuxCDfMu"
           "/edit#gid=0").
  - reflexivity.
  - reflexivity.
  - reflexivity.
  - reflexivity.
  - right. eexists. reflexivity.
  - reflexivity.
Defined.

(** The link of a sheet pasted into the text field. *)
Lemma resolve_sheet_id_manual_link_witness :
  resolve_sheet_id strip_spaces ex_env_manual = Rerun "1ivuxCDfMu" /\
  resolve_sheet_id strip_spaces (after_rerun ex_env_manual "1ivuxCDfMu")
  = Returned (Some "1ivuxCDfMu").
Proof.
  apply (resolve_sheet_id_manual_link strip_spaces ex_env_manual
           "https://docs.google.com/spreadsheets" "1ivuxCDfMu"
           "/edit#gid=0").
  - reflexivity.
  - reflexivity.
  - reflexivity.
  - reflexivity.
  - discriminate.
  - reflexivity.
  - reflexivity.
  - reflexivity.
  - right. eexists. reflexivity.
Defined.

Lemma resolve_sheet_id_no_slash_witness :
  exists sid,
    resolve_sheet_id strip_spaces ex_env_query = Returned (Some sid) /\
    contains "/" sid = false.
Proof.
  apply (resolve_sheet_id_no_slash strip_spaces ex_env_query ex_url).
  - reflexivity.
  - reflexivity.
Defined.

Lemma sheet_id_first_or_last_witness :
  sheet_id_of_query strip_spaces ("x" +:+ "/d/" +:+ "abc" +:+ "/d/" +:+ "def")
  = "def" /\
  sheet_id_of_input strip_spaces ("x" +:+ "/d/" +:+ "abc" +:+ "/d/" +:+ "def")
  = "abc".
Proof.
  apply (sheet_id_first_or_last strip_spaces "x" "abc" "def").
  - reflexivity.
  - reflexivity.
  - reflexivity.
  - reflexivity.
Defined.

(** No stock row for "Cap". *)
Lemma compute_missing_stock_blocks_witness :
  exists display shortages,
    compute parse_decimal ex_usage ex_stock_bottles_only 5
    = Ok (display, 0%Z, shortages).
Proof.
  apply (compute_missing_stock_blocks parse_decimal ex_usage
           ex_stock_bottles_only 5
           {| usage_Component := "Cap"; usage_Per_Case := Num 12;
              usage_UOM := "ea" |} 12).
  - apply list_elem_of_further, list_elem_of_here.
  - reflexivity.
  - reflexivity.
  - by apply (bool_decide_unpack _).
  - intros c q Hc Hq. simpl in Hc.
    repeat (apply elem_of_cons in Hc as [->|Hc]);
      [injection Hq as <-; unfold Qle; simpl; lia..
      |by apply elem_of_nil in Hc].
Defined.


Lemma page_compute_unedited_witness :
  exists base,
    base_frame parse_decimal ex_usage ex_stock = Ok base /\
    page_compute parse_decimal ex_usage ex_stock
      ((fun b => Num b.2) <$> base) 5
    = compute parse_decimal ex_usage ex_stock 5.
Proof.
  apply (page_compute_unedited parse_decimal ex_usage
           [("Bottle", Num 100); ("Cap", Num 50)] 5).
  by apply (bool_decide_unpack _).
Defined.

(** An edited table without [On_Hand]: the worksheet keeps its rows. *)
Lemma write_onhand_missing_column_witness :
  exists e,
    write_onhand parse_decimal "INVENTORY" ex_sheet ex_edited_no_on_hand
    = (Raise e, ex_sheet) /\
    (e = WorksheetNotFound "INVENTORY" \/ e = KeyError "Component" \/
     e = KeyError "On_Hand").
Proof.
  apply (write_onhand_missing_column parse_decimal "INVENTORY" ex_sheet
           ex_edited_no_on_hand).
  right. by apply (bool_decide_unpack _).
Defined.

Lemma write_onhand_twice_witness :
  exists sh1,
    write_onhand parse_decimal "INVENTORY" ex_sheet ex_edited = (Ok (), sh1) /\
    write_onhand parse_decimal "INVENTORY" sh1 ex_edited = (Ok (), sh1).
Proof.
  eapply (write_onhand_twice parse_decimal "INVENTORY" ex_sheet).
  - reflexivity.
  - reflexivity.
  - reflexivity.
Defined.

(** A FORMULA worksheet with a text in [Per_Case], beside an inventory
    worksheet with both labels. *)
Lemma load_data_tables_witness :
  exists formula inv i j i' j',
    read_ws_df ex_formula_grid = Ok formula /\
    read_ws_df ex_inventory_grid = Ok inv /\
    headers ex_formula_grid !! i = Some "Component" /\
    headers ex_formula_grid !! j = Some "Per_Case" /\
    headers ex_inventory_grid !! i' = Some "Component" /\
    headers ex_inventory_grid !! j' = Some "On_Hand" /\
    load_data parse_decimal ex_formula_grid ex_inventory_grid
    = Ok (comps_frame parse_decimal formula i j,
          onhand_frame parse_decimal inv i' j').
Proof.
  eexists _, _.
  assert (Hf : read_ws_df ex_formula_grid = Ok _) by reflexivity.
  assert (Hi : read_ws_df ex_inventory_grid = Ok _) by reflexivity.
  destruct (load_data_tables parse_decimal ex_formula_grid ex_inventory_grid
              _ _ Hf Hi)
    as (i & j & i' & j' & H); [reflexivity|reflexivity|vm_compute; lia
                              |reflexivity|reflexivity|].
  exists i, j, i', j'. split; [exact Hf|]. split; [exact Hi|]. exact H.
Defined.



(** A stock frame with the columns [Component] and [UOM] and no
    [On_Hand]: [compute] raises. *)
Lemma compute_frame_uom_clash_counterexample :
  frame_others ex_frame_uom !! "On_Hand" = None /\
  compute_frame parse_decimal ex_usage ex_frame_uom 5
  = Raise (KeyError "UOM") /\
  ~ exists display max_sell shortages,
      compute_frame parse_decimal ex_usage ex_frame_uom 5
      = Ok (display, max_sell, shortages).
Proof.
  assert (H : compute_frame parse_decimal ex_usage ex_frame_uom 5
              = Raise (KeyError "UOM")) by (vm_compute; reflexivity).
  split; [reflexivity|]. split; [exact H|].
  intros (d & m & sh & Hok). rewrite H in Hok. discriminate.
Qed.

(** A stock frame with the columns [Component] and [Note]. *)
Lemma compute_frame_without_on_hand_witness :
  exists display max_sell shortages,
    compute_frame parse_decimal ex_usage ex_frame_note 5
    = Ok (display, max_sell, shortages) /\
    compute_frame parse_decimal ex_usage ex_frame_note 5
    = compute_frame parse_decimal ex_usage
        {| frame_Component := frame_Component ex_frame_note;
           frame_others :=
             <["On_Hand" := replicate (length (frame_Component ex_frame_note))
                              (Num 0)]> (frame_others ex_frame_note) |} 5 /\
    (forall r, r ∈ display \/ r ∈ shortages -> On_Hand r = 0%Q).
Proof.
  apply (compute_frame_without_on_hand parse_decimal ex_usage ex_frame_note 5);
    reflexivity.
Defined.

(** * Binary64: the limit and the errors of [compute] *)
Module B64Facts.
Import B64.

Section Binary64.

Variable str_to_float : string -> option spec_float.

Lemma b64_coerce_Ok c : coerce str_to_float c = Ok (coerced str_to_float c).
Proof.
  unfold B64.coerced, B64.coerce.
  destruct c as [x|s|]; simpl; try reflexivity.
  destruct (String.eqb s EmptyString); simpl; [reflexivity|].
  destruct (str_to_float s); reflexivity.
Qed.

Lemma b64_derive_Ok cases j :
  derive str_to_float cases j = Ok (derived str_to_float cases j).
Proof. unfold B64.derive. rewrite !b64_coerce_Ok. reflexivity. Qed.

(** [compute] raises only where [math.floor] does. *)
Lemma b64_compute_normal comps onhand cases :
  compute str_to_float comps onhand cases
  = max_sell ←
      (match filter (fun r => SFltb zero (Per_Case r) = true)
               (derived_frame str_to_float comps onhand cases) with
       | [] => mret 0%Z
       | _ =>
           math_floor
             (series_min
                (ratio <$> filter (fun r => SFltb zero (Per_Case r) = true)
                             (derived_frame str_to_float comps onhand cases)))
       end);
    mret (sort_values (derived_frame str_to_float comps onhand cases), max_sell,
          filter (fun r => SFltb (Remaining r) zero = true)
            (derived_frame str_to_float comps onhand cases)).
Proof.
  unfold B64.compute.
  rewrite (mapM_Ok _ (derived str_to_float cases)) by apply b64_derive_Ok.
  fold (derived_frame str_to_float comps onhand cases).
  cbn [mbind result_bind]. cbv zeta.
  by destruct (filter (fun r => SFltb zero (Per_Case r) = true)
                 (derived_frame str_to_float comps onhand cases)).
Qed.

Lemma b64_elem_of_merge_left {A : Type} u a left
    (right : list (string * A)) na :
  (u, a) ∈ merge_left left right na <->
  u ∈ left /\
  ((usage_Component u, a) ∈ right \/
   (a = na /\ usage_Component u ∉ fst <$> right)).
Proof.
  unfold merge_left. rewrite list_elem_of_bind. split.
  - intros (u' & Hin & Hu').
    destruct (filter _ right) as [|m ms] eqn:E.
    + apply list_elem_of_singleton in Hin. injection Hin as -> ->.
      split; [exact Hu'|]. right. split; [reflexivity|].
      by apply filter_key_nil.
    + apply list_elem_of_fmap in Hin as ([n b] & Heq & Hin).
      injection Heq as -> ->. split; [exact Hu'|]. left.
      rewrite <- E in Hin.
      apply (list_elem_of_filter
               (fun r : string * A => r.1 = usage_Component u')) in Hin
        as [Hk Hin].
      simpl in Hk. by rewrite <- Hk.
  - intros [Hu [Hin|[-> Hnot]]]; exists u; (split; [|exact Hu]).
    + assert (Hf : (usage_Component u, a)
                   ∈ filter (fun r : string * A => r.1 = usage_Component u)
                       right)
        by (apply list_elem_of_filter; by split).
      destruct (filter _ right) as [|m ms]; [by apply elem_of_nil in Hf|].
      apply list_elem_of_fmap. by exists (usage_Component u, a).
    + apply filter_key_nil in Hnot. rewrite Hnot. apply list_elem_of_here.
Qed.

Lemma b64_elem_of_merge_on_hand u c comps onhand :
  (u, c) ∈ merge_on_hand comps onhand <->
  u ∈ comps /\ joined_cell onhand (usage_Component u) c.
Proof.
  destruct onhand as [rows|names]; simpl.
  - apply b64_elem_of_merge_left.
  - rewrite list_elem_of_fmap. split.
    + intros ([u' []] & Heq & Hin). injection Heq as -> ->.
      apply b64_elem_of_merge_left in Hin as [Hu _]. by split.
    + intros [Hu ->]. exists (u, ()). split; [reflexivity|].
      apply b64_elem_of_merge_left. split; [exact Hu|].
      destruct (decide (usage_Component u ∈ names)) as [Hn|Hn].
      * left. apply list_elem_of_fmap. by exists (usage_Component u).
      * right. split; [reflexivity|].
        rewrite <- list_fmap_compose.
        change (fst ∘ _) with (@id string). by rewrite list_fmap_id.
Qed.

(** The candidate rows of [compute] are the limiting rows of the merged
    frame. *)
Lemma b64_elem_of_candidates comps onhand cases r :
  r ∈ filter (fun r => SFltb zero (Per_Case r) = true)
        (derived_frame str_to_float comps onhand cases) <->
  exists u c, limiting str_to_float comps onhand u c /\ r = derived str_to_float cases (u, c).
Proof.
  rewrite (list_elem_of_filter (fun r => SFltb zero (Per_Case r) = true)).
  unfold B64.derived_frame. rewrite list_elem_of_fmap. split.
  - intros [Hpos ([u c] & -> & Hin)].
    apply b64_elem_of_merge_on_hand in Hin as [Hu Hc].
    exists u, c. by repeat split.
  - intros (u & c & (Hu & Hc & Hpos) & ->). split; [exact Hpos|].
    exists (u, c). split; [reflexivity|].
    by apply b64_elem_of_merge_on_hand.
Qed.

(** *** The order of binary64 values *)

Ltac sf_cases :=
  repeat match goal with
  | H : context [(?x ?= ?y)%Z] |- _ =>
      destruct (Z.compare_spec x y); try subst; simpl in H
  | |- context [(?x ?= ?y)%Z] =>
      destruct (Z.compare_spec x y); try subst; simpl
  | H : context [(?x ?= ?y)%positive] |- _ =>
      destruct (Pos.compare_spec x y); try subst; simpl in H
  | |- context [(?x ?= ?y)%positive] =>
      destruct (Pos.compare_spec x y); try subst; simpl
  end.

Lemma b64_ltb_trans a b c :
  is_nan a = false -> is_nan b = false -> is_nan c = false ->
  SFltb b a = false -> SFltb c b = false -> SFltb c a = false.
Proof.
  unfold SFltb, SFcompare.
  change (PosDef.Pos.compare_cont Eq) with Pos.compare.
  destruct a as [sa|sa| |sa ma ea], b as [sb|sb| |sb mb eb],
    c as [sc|sc| |sc mc ec]; simpl; try discriminate; intros _ _ _;
    try destruct sa; try destruct sb; try destruct sc; simpl;
    try discriminate; try reflexivity; intros H1 H2;
    sf_cases; try discriminate; try reflexivity; try lia.
Qed.

(** Values that do not undercut each other have the same floor. *)
Lemma b64_ltb_antisym a b :
  is_nan a = false -> is_nan b = false ->
  SFltb b a = false -> SFltb a b = false ->
  math_floor a = math_floor b.
Proof.
  unfold SFltb, SFcompare.
  change (PosDef.Pos.compare_cont Eq) with Pos.compare.
  destruct a as [sa|sa| |sa ma ea], b as [sb|sb| |sb mb eb];
    simpl; try discriminate; intros _ _;
    try destruct sa; try destruct sb; simpl;
    try discriminate; try reflexivity; intros H1 H2;
    sf_cases; try discriminate; try reflexivity; try lia.
Qed.

Lemma b64_ltb_irrefl a : SFltb a a = false.
Proof.
  unfold SFltb, SFcompare.
  change (PosDef.Pos.compare_cont Eq) with Pos.compare.
  destruct a as [sa|sa| |sa ma ea]; try destruct sa; simpl;
    try reflexivity; by rewrite Z.compare_refl, Pos.compare_refl.
Qed.

Lemma b64_ltb_asym a b : SFltb a b = true -> SFltb b a = false.
Proof.
  unfold SFltb, SFcompare.
  change (PosDef.Pos.compare_cont Eq) with Pos.compare.
  destruct a as [sa|sa| |sa ma ea], b as [sb|sb| |sb mb eb];
    try destruct sa; try destruct sb; simpl;
    try discriminate; try reflexivity; intros H1;
    sf_cases; try discriminate; try reflexivity; try lia.
Qed.

Lemma b64_ltb_nan_l a b : is_nan a = true -> SFltb a b = false.
Proof. by destruct a. Qed.

Lemma b64_fmin_cases a b :
  is_nan a = false -> is_nan b = false ->
  (fmin a b = a \/ fmin a b = b) /\
  SFltb a (fmin a b) = false /\ SFltb b (fmin a b) = false.
Proof.
  intros Ha Hb. unfold fmin. destruct (SFltb b a) eqn:E.
  - split; [by right|]. split; [by apply b64_ltb_asym|apply b64_ltb_irrefl].
  - split; [by left|]. split; [apply b64_ltb_irrefl|exact E].
Qed.

Lemma b64_foldl_fmin l x :
  is_nan x = false -> Forall (fun y => is_nan y = false) l ->
  foldl fmin x l ∈ x :: l /\
  is_nan (foldl fmin x l) = false /\
  forall y, y ∈ x :: l -> SFltb y (foldl fmin x l) = false.
Proof.
  revert x. induction l as [|z l IH]; intros x Hx Hl.
  - simpl. split; [apply list_elem_of_here|]. split; [exact Hx|].
    intros y Hy. apply list_elem_of_singleton in Hy as ->.
    apply b64_ltb_irrefl.
  - apply Forall_cons in Hl as [Hz Hl]. cbn [foldl].
    destruct (b64_fmin_cases x z Hx Hz) as (Hor & Hmx & Hmz).
    assert (Hm : is_nan (fmin x z) = false)
      by (destruct Hor as [->| ->]; assumption).
    destruct (IH (fmin x z) Hm Hl) as (Hin & Hnan & Hmin).
    split; [|split; [exact Hnan|]].
    + apply elem_of_cons in Hin as [Heq|Hin].
      * rewrite Heq. destruct Hor as [->| ->].
        -- apply list_elem_of_here.
        -- apply list_elem_of_further, list_elem_of_here.
      * by do 2 apply list_elem_of_further.
    + intros y Hy.
      assert (Hf : SFltb (fmin x z) (foldl fmin (fmin x z) l) = false)
        by apply Hmin, list_elem_of_here.
      apply elem_of_cons in Hy as [->|Hy];
        [|apply elem_of_cons in Hy as [->|Hy]].
      * by apply (b64_ltb_trans _ (fmin x z)).
      * by apply (b64_ltb_trans _ (fmin x z)).
      * by apply Hmin, list_elem_of_further.
Qed.

(** [Series.min()] of a non-empty series: NaN when every value is NaN,
    otherwise a value of the series that is not NaN and that no value
    of the series undercuts. *)
Lemma b64_series_min_spec l :
  (Forall (fun x => is_nan x = true) l -> series_min l = S754_nan) /\
  (forall x, x ∈ l -> is_nan x = false ->
     series_min l ∈ l /\ is_nan (series_min l) = false /\
     forall y, y ∈ l -> SFltb y (series_min l) = false).
Proof.
  unfold series_min. split.
  - intros Hall.
    destruct (filter (fun x => is_nan x = false) l) as [|x l'] eqn:E;
      [reflexivity|].
    assert (Hx : x ∈ filter (fun x => is_nan x = false) l)
      by (rewrite E; apply list_elem_of_here).
    apply (list_elem_of_filter (fun x => is_nan x = false)) in Hx
      as [Hx Hin].
    rewrite Forall_forall in Hall. rewrite (Hall x Hin) in Hx. discriminate.
  - intros x Hx Hnan.
    assert (Hf : x ∈ filter (fun x => is_nan x = false) l)
      by (by apply (list_elem_of_filter (fun x => is_nan x = false))).
    destruct (filter (fun x => is_nan x = false) l) as [|x0 l'] eqn:E;
      [by apply elem_of_nil in Hf|].
    assert (Hall : Forall (fun y => is_nan y = false) (x0 :: l')).
    { rewrite <- E. apply Forall_forall. intros y Hy.
      by apply (list_elem_of_filter (fun x => is_nan x = false)) in Hy
        as [? _]. }
    apply Forall_cons in Hall as [Hx0 Hl'].
    destruct (b64_foldl_fmin l' x0 Hx0 Hl') as (Hin & Hn & Hmin).
    split; [|split; [exact Hn|]].
    + rewrite <- E in Hin.
      by apply (list_elem_of_filter (fun x => is_nan x = false)) in Hin
        as [_ ?].
    + intros y Hy. destruct (is_nan y) eqn:Hy'.
      * by apply b64_ltb_nan_l.
      * apply Hmin. rewrite <- E.
        by apply (list_elem_of_filter (fun x => is_nan x = false)).
Qed.

Lemma b64_elem_of_ratios comps onhand cases x :
  x ∈ ratio <$> filter (fun r => SFltb zero (Per_Case r) = true)
                  (derived_frame str_to_float comps onhand cases) <->
  exists u c, limiting str_to_float comps onhand u c /\
    x = ratio_of str_to_float u c.
Proof.
  rewrite list_elem_of_fmap. split.
  - intros (r & -> & Hr).
    apply b64_elem_of_candidates in Hr as (u & c & Hl & ->).
    by exists u, c.
  - intros (u & c & Hl & ->). exists (derived str_to_float cases (u, c)).
    split; [reflexivity|]. apply b64_elem_of_candidates. by exists u, c.
Qed.

(** C1, amended: in binary64, [compute] gives [max_sell = 0] when no row
    of the merged frame has [Per_Case > 0].  Otherwise take a limiting
    row (a usage row with positive coerced [Per_Case] beside a stock
    cell the merge attaches to it) whose ratio [On_Hand / Per_Case],
    the rounded binary64 quotient, is not NaN and is undercut by no
    limiting row: when that ratio is finite, [compute] returns with
    [max_sell] the floor of it; when it is an infinity, [compute]
    raises [OverflowError].  Such a row exists unless every ratio is
    NaN, and then [compute] raises [ValueError]. *)
Theorem compute_max_sell_binary64 comps onhand cases :
  ((forall u c, ~ limiting str_to_float comps onhand u c) ->
   exists display shortages,
     compute str_to_float comps onhand cases
     = Ok (display, 0%Z, shortages)) /\
  (forall u c,
     limiting str_to_float comps onhand u c ->
     is_nan (ratio_of str_to_float u c) = false ->
     (forall u' c', limiting str_to_float comps onhand u' c' ->
        SFltb (ratio_of str_to_float u' c') (ratio_of str_to_float u c)
        = false) ->
     match ratio_of str_to_float u c with
     | S754_infinity _ =>
         compute str_to_float comps onhand cases = Raise OverflowError
     | S754_nan => True
     | x =>
         exists display shortages,
           compute str_to_float comps onhand cases
           = Ok (display, Qfloor (value x), shortages)
     end) /\
  (forall u c,
     limiting str_to_float comps onhand u c ->
     is_nan (ratio_of str_to_float u c) = false ->
     exists u0 c0,
       limiting str_to_float comps onhand u0 c0 /\
       is_nan (ratio_of str_to_float u0 c0) = false /\
       forall u' c', limiting str_to_float comps onhand u' c' ->
         SFltb (ratio_of str_to_float u' c') (ratio_of str_to_float u0 c0)
         = false) /\
  (forall u c,
     limiting str_to_float comps onhand u c ->
     (forall u' c', limiting str_to_float comps onhand u' c' ->
        is_nan (ratio_of str_to_float u' c') = true) ->
     compute str_to_float comps onhand cases = Raise ValueError_nan).
Proof.
  rewrite b64_compute_normal.
  set (df := derived_frame str_to_float comps onhand cases).
  set (cs := filter (fun r => SFltb zero (Per_Case r) = true) df).
  pose proof (b64_elem_of_ratios comps onhand cases) as Hrs.
  fold df in Hrs. fold cs in Hrs.
  destruct (b64_series_min_spec (ratio <$> cs)) as [Hnan Hmin].
  assert (Hne : forall u c, limiting str_to_float comps onhand u c ->
            match cs with
            | [] => mret 0%Z
            | _ => math_floor (series_min (ratio <$> cs))
            end = math_floor (series_min (ratio <$> cs))).
  { intros u c Hl. destruct cs as [|r cs'] eqn:E; [|reflexivity].
    assert (Hin : ratio_of str_to_float u c ∈ ratio <$> @nil feas_row)
      by (apply Hrs; by exists u, c).
    by apply elem_of_nil in Hin. }
  repeat split.
  - intros Hnone. destruct cs as [|r cs'] eqn:E; [by eexists _, _|].
    assert (Hr : ratio r ∈ ratio <$> r :: cs') by apply list_elem_of_here.
    apply Hrs in Hr as (u & c & Hl & _). by destruct (Hnone u c).
  - intros u c Hl Hn Hleast. rewrite (Hne u c Hl).
    destruct (Hmin (ratio_of str_to_float u c)) as (Hin & Hmn & Hall);
      [apply Hrs; by exists u, c|exact Hn|].
    apply Hrs in Hin as (u1 & c1 & Hl1 & Heq).
    assert (Hfloor : math_floor (series_min (ratio <$> cs))
                     = math_floor (ratio_of str_to_float u c)).
    { apply b64_ltb_antisym; [exact Hmn|exact Hn| |].
      - apply Hall, Hrs. by exists u, c.
      - rewrite Heq. by apply Hleast. }
    rewrite Hfloor.
    destruct (ratio_of str_to_float u c); [by eexists _, _|reflexivity|done
                                           |by eexists _, _].
  - intros u c Hl Hn.
    destruct (Hmin (ratio_of str_to_float u c)) as (Hin & Hmn & Hall);
      [apply Hrs; by exists u, c|exact Hn|].
    apply Hrs in Hin as (u0 & c0 & Hl0 & Heq).
    exists u0, c0. rewrite <- Heq. split; [exact Hl0|]. split; [exact Hmn|].
    intros u' c' Hl'. apply Hall, Hrs. by exists u', c'.
  - intros u c Hl Hall. rewrite (Hne u c Hl), Hnan; [reflexivity|].
    apply Forall_forall. intros x Hx.
    apply Hrs in Hx as (u' & c' & Hl' & ->). by apply Hall.
Qed.

(** *** Malformed cells *)

Lemma b64_coerced_repair_cell c :
  coerced str_to_float (repair_cell str_to_float c) = coerced str_to_float c.
Proof.
  unfold B64.repair_cell, B64.coerced, B64.coerce.
  destruct (to_numeric str_to_float errors_coerce c) as [x|e] eqn:E;
    [|by rewrite E].
  destruct x; rewrite ?E; reflexivity.
Qed.

Lemma b64_filter_repair k (rows : list (string * cell)) :
  filter (fun r => r.1 = k) (prod_map id (repair_cell str_to_float) <$> rows)
  = prod_map id (repair_cell str_to_float) <$> filter (fun r => r.1 = k) rows.
Proof.
  induction rows as [|[n c] rows IH]; [reflexivity|].
  rewrite fmap_cons. destruct (decide (n = k)) as [Hk|Hk].
  - rewrite !filter_cons_True by exact Hk. by rewrite fmap_cons, IH.
  - by rewrite !filter_cons_False by exact Hk.
Qed.

Lemma b64_derived_repair cases u c1 c2 :
  coerced str_to_float c1 = coerced str_to_float c2 ->
  derived str_to_float cases (repair_usage str_to_float u, c1)
  = derived str_to_float cases (u, c2).
Proof.
  intros Hc. unfold B64.derived.
  cbn [fst snd B64.repair_usage usage_Component usage_Per_Case usage_UOM].
  by rewrite b64_coerced_repair_cell, Hc.
Qed.

Lemma b64_derived_frame_repair comps onhand cases :
  derived_frame str_to_float (repair_usage str_to_float <$> comps)
    (repair_stock str_to_float onhand) cases
  = derived_frame str_to_float comps onhand cases.
Proof.
  unfold B64.derived_frame.
  destruct onhand as [rows|names]; cbn [B64.repair_stock merge_on_hand].
  - unfold merge_left. induction comps as [|u comps IH]; [reflexivity|].
    rewrite fmap_cons, !bind_cons, !fmap_app, IH. f_equal.
    cbn [B64.repair_usage usage_Component]. rewrite b64_filter_repair.
    destruct (filter (fun r => r.1 = usage_Component u) rows) as [|m ms].
    + cbn [fmap list_fmap]. by rewrite (b64_derived_repair cases u NA NA).
    + rewrite fmap_cons. cbv beta iota. rewrite <- fmap_cons.
      rewrite <- !list_fmap_compose. apply list_fmap_ext.
      intros _ [n c] _. cbn. apply b64_derived_repair.
      apply b64_coerced_repair_cell.
  - rewrite <- !list_fmap_compose. unfold merge_left.
    induction comps as [|u comps IH]; [reflexivity|].
    rewrite fmap_cons, !bind_cons, !fmap_app, IH. f_equal.
    cbn [B64.repair_usage usage_Component].
    destruct (filter _ _) as [|m ms].
    + cbn [fmap list_fmap compose fst]. f_equal.
      by apply b64_derived_repair.
    + cbv beta iota. rewrite <- !list_fmap_compose. apply list_fmap_ext.
      intros _ [n []] _. cbn [compose fst snd]. by apply b64_derived_repair.
Qed.

Lemma b64_malformed_to_numeric c :
  malformed str_to_float c <->
  to_numeric str_to_float errors_coerce c = Ok S754_nan.
Proof.
  unfold B64.malformed. split.
  - intros [->|[->|[->|(s & -> & Hs)]]]; try reflexivity. simpl.
    destruct (String.eqb s EmptyString); [reflexivity|].
    by destruct Hs as [->| ->].
  - destruct c as [x|s|]; simpl; [|intros H|by left].
    + intros [= ->]. by right; left.
    + destruct (String.eqb s EmptyString) eqn:E.
      { apply String.eqb_eq in E. subst s. by right; right; left. }
      right; right; right. exists s. split; [reflexivity|].
      destruct (str_to_float s) as [x|]; [|by left].
      injection H as ->. by right.
Qed.

Lemma b64_math_floor_finite x :
  is_finite x = true -> math_floor x = Ok (Qfloor (value x)).
Proof. by destruct x. Qed.

(** C5, amended: a [Per_Case] or [On_Hand] cell that is a text which
    does not parse, an empty text, a null or a NaN is coerced to [0.0]
    before any arithmetic, and [compute] gives the result, or the
    error, that it gives on the tables in which exactly these cells are
    replaced by [0.0]: such a cell does not make it raise.  [compute]
    returns whenever every limiting row has a finite ratio. *)
Theorem compute_repairs_malformed_cells comps onhand cases :
  compute str_to_float comps onhand cases
  = compute str_to_float (repair_usage str_to_float <$> comps)
      (repair_stock str_to_float onhand) cases /\
  (forall c, malformed str_to_float c ->
     coerce str_to_float c = Ok zero /\
     repair_cell str_to_float c = Num zero) /\
  (forall c, ~ malformed str_to_float c -> repair_cell str_to_float c = c) /\
  ((forall u c, limiting str_to_float comps onhand u c ->
      is_finite (ratio_of str_to_float u c) = true) ->
   returns (compute str_to_float comps onhand cases)).
Proof.
  split; [by rewrite !b64_compute_normal, b64_derived_frame_repair|].
  split; [|split].
  - intros c Hc. apply b64_malformed_to_numeric in Hc.
    unfold B64.coerce, B64.repair_cell. by rewrite Hc.
  - intros c Hc. rewrite b64_malformed_to_numeric in Hc.
    unfold B64.repair_cell.
    destruct (to_numeric str_to_float errors_coerce c) as [[]|e]; done.
  - intros Hfin. rewrite b64_compute_normal.
    pose proof (b64_elem_of_ratios comps onhand cases) as Hrs.
    destruct (filter (fun r => SFltb zero (Per_Case r) = true)
                (derived_frame str_to_float comps onhand cases))
      as [|r cs]; [by eexists|].
    destruct (b64_series_min_spec (ratio <$> r :: cs)) as [_ Hmin].
    assert (Hr : ratio r ∈ ratio <$> r :: cs) by apply list_elem_of_here.
    destruct (proj1 (Hrs _) Hr) as (u & c & Hl & Heq).
    destruct (Hmin _ Hr) as (Hin & _ & _).
    { rewrite Heq. specialize (Hfin u c Hl).
      by destruct (ratio_of str_to_float u c). }
    apply Hrs in Hin as (u0 & c0 & Hl0 & Heq0).
    rewrite Heq0, (b64_math_floor_finite _ (Hfin u0 c0 Hl0)). by eexists.
Qed.

End Binary64.

(** The division is the rounded one: 0.3 / 0.1 is just below 3 in
    binary64, and [max_sell] is 2. *)
Example compute_three_tenths_example :
  exists display,
    compute no_parse ex_usage_tenth ex_stock_three_tenths half
    = Ok (display, 2%Z, []).
Proof. eexists. vm_compute. reflexivity. Qed.

(** Finite numbers whose quotient overflows: [math.floor] raises on the
    infinite ratio, and [compute] returns nothing. *)
Lemma compute_overflow_counterexample :
  is_finite huge = true /\ is_finite half = true /\
  compute no_parse ex_usage_bottle_half ex_stock_bottle_huge half
  = Raise OverflowError /\
  ~ exists display max_sell shortages,
      compute no_parse ex_usage_bottle_half ex_stock_bottle_huge half
      = Ok (display, max_sell, shortages).
Proof.
  assert (H : compute no_parse ex_usage_bottle_half ex_stock_bottle_huge half
              = Raise OverflowError) by (vm_compute; reflexivity).
  split; [reflexivity|]. split; [reflexivity|]. split; [exact H|].
  intros (d & m & sh & Hok). rewrite H in Hok. discriminate.
Qed.

(** Tables with a text that is not a number and a null, on which
    [compute] raises. *)
Lemma compute_malformed_raises_counterexample :
  malformed no_parse (Str "twelve") /\ malformed no_parse NA /\
  Str "twelve" ∈ usage_Per_Case <$> ex_usage_half /\
  raises (compute no_parse ex_usage_half ex_stock_huge half).
Proof.
  split; [right; right; right; exists "twelve"; by split; [|left]|].
  split; [by left|].
  split; [apply list_elem_of_further, list_elem_of_here|].
  exists OverflowError. vm_compute. reflexivity.
Qed.

End B64Facts.
